(** * Query handlers of the traveler-integrated server (serve.py)

    A shallow embedding of the three read-only query handlers of
    [serve.py] -- [histogram], [intervals] and [intervalTrace] -- together
    with the two dataset checks they share, and the properties of the
    design document that concern them.

    Conventions of the embedding.
    - The global [db] is a finite map from dataset labels to datasets; a
      dataset is the dict [db[label]], a finite map from string keys to
      fields.  Keys are looked up by the very strings the source uses.
    - [raise] becomes the [Raise] constructor of [result]; a handler that
      returns a [StreamingResponse] returns [Ok] of the stream its
      generator produces.
    - A generator is run to its end: a stream is the list of chunks it
      yields, in order, and the way it stopped ([Finished], or [Raised]
      by an exception thrown between two yields).
    - The interval-tree class behind [db[label]['intervalIndexes']] is a
      library object; an index is the record of the three methods the
      handlers call on it.
    - Timestamps are an arbitrary type with decidable equality and two
      boolean comparisons, [leb] for [<=] and [ltb] for [<]; no law is
      assumed of them. *)

From Stdlib Require Import Ascii String.
From stdpp Require Import gmap strings list.

(** ** Exceptions and the error monad *)

Inductive Exn :=
| HTTPException (status_code : Z) (detail : string)
| KeyError (key : string)
| IndexError
| TypeError
| AttributeError (name : string).

Inductive result (A : Type) :=
| Ok (a : A)
| Raise (e : Exn).
Arguments Ok {A} a.
Arguments Raise {A} e.

#[global] Instance result_ret : MRet result := fun _ a => Ok a.
#[global] Instance result_bind : MBind result :=
  fun _ _ f r => match r with Ok a => f a | Raise e => Raise e end.

(** Code that runs against a global object of type [S]: it returns a value
    or raises, and leaves the object in some state.  An exception keeps the
    state reached when it was raised. *)
Definition Handler (S A : Type) : Type := S → result A * S.

#[global] Instance handler_ret {S} : MRet (Handler S) :=
  fun _ a s => (Ok a, s).
#[global] Instance handler_bind {S} : MBind (Handler S) :=
  fun _ _ f m s =>
    match m s with
    | (Ok a, s1) => f a s1
    | (Raise e, s1) => (Raise e, s1)
    end.

(** [raise]; an expression that only reads the global object (a subscript,
    a membership test); and the result of a call that does not involve the
    global object at all. *)
Definition hraise {S A} (e : Exn) : Handler S A := fun s => (Raise e, s).
Definition readDb {S A} (f : S → result A) : Handler S A := fun s => (f s, s).
Definition called {S A} (r : result A) : Handler S A := fun s => (r, s).

(** How a generator stopped. [Running] is the model's own case: the
    generator was still looping when the fuel given to the model ran out. *)
Inductive Outcome :=
| Finished
| Raised (e : Exn)
| Running.

(** ** Text helpers *)

(** The double-quote character, and [',"%s"'] / ['"%s"'] formatting. *)
Definition dquote : string := String (ascii_of_nat 34) EmptyString.

Definition quoted (s : string) : string := dquote +:+ s +:+ dquote.

Definition is_lower (c : ascii) : bool :=
  (97 <=? nat_of_ascii c)%nat && (nat_of_ascii c <=? 122)%nat.

Definition is_upper (c : ascii) : bool :=
  (65 <=? nat_of_ascii c)%nat && (nat_of_ascii c <=? 90)%nat.

Definition to_upper (c : ascii) : ascii :=
  if is_lower c then ascii_of_nat (nat_of_ascii c - 32) else c.

Definition to_lower (c : ascii) : ascii :=
  if is_upper c then ascii_of_nat (nat_of_ascii c + 32) else c.

(** [str.title()] on ASCII text: a cased character is upper-cased when it
    follows an uncased one (or starts the string) and lower-cased
    otherwise. *)
Fixpoint title_from (prev_cased : bool) (s : string) : string :=
  match s with
  | EmptyString => EmptyString
  | String c rest =>
      if is_lower c || is_upper c
      then String (if prev_cased then to_lower c else to_upper c)
                  (title_from true rest)
      else String c (title_from false rest)
  end.

Definition title (s : string) : string := title_from false s.

(** [class HistogramMode(str, Enum)] *)
Inductive HistogramMode :=
| utilization
| count.

Definition mode_value (mode : HistogramMode) : string :=
  match mode with
  | utilization => "utilization"
  | count => "count"
  end.

(** ** Data model *)

Section Model.

Context {Time : Type} `{!EqDecision Time}.
Context {Hist : Type}.

(** [<=] and [<] on timestamps. *)
Variable leb : Time → Time → bool.
Variable ltb : Time → Time → bool.

(** [interval['enter']] and [interval['leave']] *)
Record Event := { Timestamp : Time }.

(** [interval['lastParentInterval']], with its keys [id], [location]
    and [endTimestamp]. *)
Record ParentLink := {
  parent_id : string;
  parent_location : string;
  parent_endTimestamp : Time
}.

(** An interval record; [lastParentInterval] is [None] when the key is
    not in the dict. *)
Record Interval := {
  intervalId : string;
  Location : string;
  Primitive : string;
  enter : Event;
  leave : Event;
  lastParentInterval : option ParentLink
}.

#[global] Instance Event_eq_dec : EqDecision Event.
Proof. solve_decision. Defined.

#[global] Instance ParentLink_eq_dec : EqDecision ParentLink.
Proof. solve_decision. Defined.

#[global] Instance Interval_eq_dec : EqDecision Interval.
Proof. solve_decision. Defined.

(** An index object: the methods the handlers call.  [iterOverlap] gives
    the [.data] of each node it yields, an interval id. *)
Record RangeIndex := {
  computeUtilizationHistogram : Z → Time → Time → result Hist;
  computeCountHistogram : Z → Time → Time → result Hist;
  iterOverlap : Time → Time → list string
}.

(** [db[label]['intervalIndexes']] *)
Record IndexSet := {
  main : RangeIndex;
  locations : gmap string RangeIndex;
  primitives : gmap string RangeIndex;
  both : gmap string (gmap string RangeIndex)
}.

(** [db[label]['meta']]; [intervalDomain] is [None] when the key is not
    in the dict. *)
Record Meta := { intervalDomain : option (list Time) }.

(** The values a dataset dict holds under its keys. *)
Inductive Field :=
| FMeta (m : Meta)
| FIntervals (store : gmap string Interval)
| FIndexes (ixs : IndexSet)
| FOther.

(** Emitted chunks, one constructor per shape of [yield] in the source. *)
Inductive JSON :=
| JString (s : string)
| JNumber (t : Time).

Inductive Chunk :=
| Text (s : string)
| TargetId (id : string)
| BeyondRight (id location : string) (beginTimestamp : Time)
| CommaId (id : string)
| BeyondLeft (id location : string) (endTimestamp : Time)
| IntervalJson (i : Interval).

#[global] Instance Chunk_eq_dec : EqDecision Chunk.
Proof. solve_decision. Defined.

(** [json.dumps], on a marker dict (its items, in order) and on a stored
    interval. *)
Variable json_dumps : list (string * JSON) → string.
Variable json_dumps_interval : Interval → string.

Definition render (c : Chunk) : string :=
  match c with
  | Text s => s
  | TargetId id => quoted id
  | BeyondRight id location t =>
      json_dumps [("type", JString "beyondRight");
                  ("id", JString id);
                  ("location", JString location);
                  ("beginTimestamp", JNumber t)]
  | CommaId id => "," +:+ quoted id
  | BeyondLeft id location t =>
      "," +:+ json_dumps [("type", JString "beyondLeft");
                          ("id", JString id);
                          ("location", JString location);
                          ("endTimestamp", JNumber t)]
  | IntervalJson i => json_dumps_interval i
  end.

(** The body a client receives: the chunks, concatenated. *)
Definition body (chunks : list Chunk) : string :=
  foldr (λ c acc, render c +:+ acc) "" chunks.


(** ** The database and its lookups *)

(** [label not in db] and [db[label]] *)
Definition getDataset (db : gmap string (gmap string Field)) (label : string)
  : result (gmap string Field) :=
  match db !! label with
  | Some ds => Ok ds
  | None => Raise (KeyError label)
  end.

(** [db[label]['meta']['intervalDomain'][i]] *)
Definition intervalDomainAt (db : gmap string (gmap string Field))
  (label : string) (i : nat) : result Time :=
  ds ← getDataset db label;
  match ds !! "meta" with
  | None => Raise (KeyError "meta")
  | Some (FMeta m) =>
      match intervalDomain m with
      | None => Raise (KeyError "intervalDomain")
      | Some dom =>
          match dom !! i with
          | Some t => Ok t
          | None => Raise IndexError
          end
      end
  | Some _ => Raise TypeError
  end.

(** [db[label]['intervalIndexes']] *)
Definition getIndexes (db : gmap string (gmap string Field)) (label : string)
  : result IndexSet :=
  ds ← getDataset db label;
  match ds !! "intervalIndexes" with
  | None => Raise (KeyError "intervalIndexes")
  | Some (FIndexes ixs) => Ok ixs
  | Some _ => Raise TypeError
  end.

(** [db[label][key][id]], for the key the source spells at that place. *)
Definition getInterval (db : gmap string (gmap string Field))
  (label key id : string) : result Interval :=
  ds ← getDataset db label;
  match ds !! key with
  | None => Raise (KeyError key)
  | Some (FIntervals store) =>
      match store !! id with
      | Some i => Ok i
      | None => Raise (KeyError id)
      end
  | Some _ => Raise TypeError
  end.

(** ** The two dataset checks *)

Definition checkDatasetExistence (db : gmap string (gmap string Field))
  (label : string) : result unit :=
  match db !! label with
  | None => Raise (HTTPException 404 "Dataset not found")
  | Some _ => Ok tt
  end.

Definition checkDatasetHasIntervals (db : gmap string (gmap string Field))
  (label : string) : result unit :=
  ds ← getDataset db label;
  match ds !! "intervals", ds !! "intervalIndexes" with
  | Some _, Some _ => Ok tt
  | _, _ =>
      Raise (HTTPException 404 "Dataset does not contain indexed interval data")
  end.

(** [if begin is None: begin = db[label]['meta']['intervalDomain'][0]], and
    the same for [end] with index 1. *)
Definition orDomain (db : gmap string (gmap string Field)) (label : string)
  (i : nat) (bound : option Time) : result Time :=
  match bound with
  | None => intervalDomainAt db label i
  | Some t => Ok t
  end.

(** ** histogram *)

(** [getattr(indexObj, name)] *)
Definition getattr (indexObj : RangeIndex) (name : string)
  : result (Z → Time → Time → result Hist) :=
  if decide (name = "computeUtilizationHistogram")
  then Ok (computeUtilizationHistogram indexObj)
  else if decide (name = "computeCountHistogram")
  then Ok (computeCountHistogram indexObj)
  else Raise (AttributeError name).

Definition modeHelper (mode : HistogramMode) (bins : Z) (begin end_ : Time)
  (indexObj : RangeIndex) : result Hist :=
  method ← getattr indexObj ("compute" +:+ title (mode_value mode) +:+ "Histogram");
  method bins begin end_.

Definition histogram (db : gmap string (gmap string Field)) (label : string)
  (mode : HistogramMode) (bins : Z) (begin end_ : option Time)
  (location primitive : option string) : result Hist :=
  _ ← checkDatasetExistence db label;
  _ ← checkDatasetHasIntervals db label;
  begin ← orDomain db label 0 begin;
  end_ ← orDomain db label 1 end_;
  match location with
  | Some location =>
      ixs ← getIndexes db label;
      match locations ixs !! location with
      | None =>
          Raise (HTTPException 404 ("No index for location: " +:+ location))
      | Some locationIndex =>
          match primitive with
          | Some primitive =>
              match both ixs !! location with
              | None => Raise (KeyError location)
              | Some byPrimitive =>
                  match byPrimitive !! primitive with
                  | None =>
                      Raise (HTTPException 404
                        ("No index for location, primitive combination: "
                           +:+ location +:+ ", " +:+ primitive))
                  | Some indexObj => modeHelper mode bins begin end_ indexObj
                  end
              end
          | None => modeHelper mode bins begin end_ locationIndex
          end
      end
  | None =>
      match primitive with
      | Some primitive =>
          ixs ← getIndexes db label;
          match primitives ixs !! primitive with
          | None =>
              Raise (HTTPException 404 ("No index for primitive: " +:+ primitive))
          | Some indexObj => modeHelper mode bins begin end_ indexObj
          end
      | None =>
          ixs ← getIndexes db label;
          modeHelper mode bins begin end_ (main ixs)
      end
  end.

(** ** intervals *)

(** The [for] loop of [intervalGenerator], over the ids still to come from
    [iterOverlap]: the comma is yielded before the record is looked up. *)
Fixpoint intervalItems (db : gmap string (gmap string Field)) (label : string)
  (firstItem : bool) (ids : list string) : list Chunk * Outcome :=
  match ids with
  | [] => ([], Finished)
  | i :: rest =>
      let comma := if firstItem then [] else [Text ","] in
      match getInterval db label "intervals" i with
      | Raise e => (comma, Raised e)
      | Ok record =>
          let '(out, how) := intervalItems db label false rest in
          (comma ++ IntervalJson record :: out, how)
      end
  end.

Definition intervalGenerator (db : gmap string (gmap string Field))
  (label : string) (begin end_ : Time) : list Chunk * Outcome :=
  match getIndexes db label with
  | Raise e => ([Text "["], Raised e)
  | Ok ixs =>
      let '(out, how) :=
        intervalItems db label true (iterOverlap (main ixs) begin end_) in
      match how with
      | Finished => (Text "[" :: out ++ [Text "]"], Finished)
      | _ => (Text "[" :: out, how)
      end
  end.

Definition intervals (db : gmap string (gmap string Field)) (label : string)
  (begin end_ : option Time) : result (list Chunk * Outcome) :=
  _ ← checkDatasetExistence db label;
  _ ← checkDatasetHasIntervals db label;
  begin ← orDomain db label 0 begin;
  end_ ← orDomain db label 1 end_;
  Ok (intervalGenerator db label begin end_).

(** ** intervalTrace *)

(** How the [while] loop of [intervalIdGenerator] was left. *)
Inductive LoopExit :=
| AtRoot                 (* [intervalObj = None]: the loop condition failed *)
| Broke (intervalObj : Interval)  (* [break], with this [intervalObj] *)
| Failed (e : Exn)       (* the parent lookup raised *)
| Unfinished.            (* out of fuel *)

(** The first [if] of the loop body: what it yields, and the new
    [oneBeyondRight]. *)
Definition rightBoundary (end_ : Time) (targetInterval intervalObj : Interval)
  (oneBeyondRight : option Interval) : list Chunk * option Interval :=
  match oneBeyondRight with
  | Some beyond =>
      if leb (Timestamp (enter intervalObj)) end_
      then
        (if decide (beyond = targetInterval)
         then [TargetId (intervalId targetInterval)]
         else [BeyondRight (intervalId beyond) (Location beyond)
                           (Timestamp (enter beyond))],
         None)
      else ([], Some beyond)
  | None => ([], None)
  end.

(** The [while] loop; one unit of fuel per iteration. *)
Fixpoint traceLoop (fuel : nat) (db : gmap string (gmap string Field))
  (label : string) (begin end_ : Time) (targetInterval intervalObj : Interval)
  (oneBeyondRight : option Interval) : list Chunk * LoopExit :=
  match fuel with
  | O => ([], Unfinished)
  | S fuel' =>
      let '(first, oneBeyondRight) :=
        rightBoundary end_ targetInterval intervalObj oneBeyondRight in
      let current :=
        if decide (intervalObj = targetInterval) then []
        else [CommaId (intervalId intervalObj)] in
      match lastParentInterval intervalObj with
      | Some link =>
          let oneBeyondRight :=
            match oneBeyondRight with
            | Some _ => Some intervalObj
            | None => None
            end in
          let prevId := parent_id link in
          match getInterval db label "intervals" prevId with
          | Raise e => (first ++ current, Failed e)
          | Ok parent =>
              if ltb (Timestamp (leave parent)) begin
              then (first ++ current, Broke parent)
              else
                let '(rest, exit) :=
                  traceLoop fuel' db label begin end_ targetInterval parent
                            oneBeyondRight in
                (first ++ current ++ rest, exit)
          end
      | None => (first ++ current, AtRoot)
      end
  end.

(** What follows the loop: the left-boundary marker and the closing
    bracket. *)
Definition traceTail (exit : LoopExit) : list Chunk * Outcome :=
  match exit with
  | AtRoot => ([Text "]"], Finished)
  | Broke intervalObj =>
      match lastParentInterval intervalObj with
      | Some link =>
          ([BeyondLeft (parent_id link) (parent_location link)
                       (parent_endTimestamp link);
            CommaId (intervalId intervalObj);
            Text "]"], Finished)
      | None => ([Text "]"], Finished)
      end
  | Failed e => ([], Raised e)
  | Unfinished => ([], Running)
  end.

(** The generator from the line after the target lookup on: the walk from
    [targetInterval] up its parent links. *)
Definition traceWalk (fuel : nat) (db : gmap string (gmap string Field))
  (label : string) (begin end_ : Time) (targetInterval : Interval)
  : list Chunk * Outcome :=
  let '(out, exit) :=
    traceLoop fuel db label begin end_ targetInterval targetInterval
              (Some targetInterval) in
  let '(tail, how) := traceTail exit in
  (out ++ tail, how).

(** The target is looked up under the key ['itervals'], as the source
    spells it; the ancestors under ['intervals']. *)
Definition intervalIdGenerator (fuel : nat)
  (db : gmap string (gmap string Field)) (label intervalId : string)
  (begin end_ : Time) : list Chunk * Outcome :=
  match getInterval db label "itervals" intervalId with
  | Raise e => ([Text "["], Raised e)
  | Ok targetInterval =>
      let '(out, how) := traceWalk fuel db label begin end_ targetInterval in
      (Text "[" :: out, how)
  end.

Definition intervalTrace (fuel : nat) (db : gmap string (gmap string Field))
  (label intervalId : string) (begin end_ : option Time)
  : result (list Chunk * Outcome) :=
  _ ← checkDatasetExistence db label;
  _ ← checkDatasetHasIntervals db label;
  begin ← orDomain db label 0 begin;
  end_ ← orDomain db label 1 end_;
  Ok (intervalIdGenerator fuel db label intervalId begin end_).

(** ** The handlers with the global [db] passed explicitly *)

(** The same handler bodies once more, now as computations on the global
    [db]: every statement is given the [db] the statement before it left
    and hands on the [db] it leaves.  Each subscript of [db] and each
    membership test is a read of its own. *)

Definition checkDatasetExistenceS (label : string)
  : Handler (gmap string (gmap string Field)) unit :=
  readDb (λ db, checkDatasetExistence db label).

Definition checkDatasetHasIntervalsS (label : string)
  : Handler (gmap string (gmap string Field)) unit :=
  readDb (λ db, checkDatasetHasIntervals db label).

Definition orDomainS (label : string) (i : nat) (bound : option Time)
  : Handler (gmap string (gmap string Field)) Time :=
  match bound with
  | None => readDb (λ db, intervalDomainAt db label i)
  | Some t => mret t
  end.

Definition histogramS (label : string) (mode : HistogramMode) (bins : Z)
  (begin end_ : option Time) (location primitive : option string)
  : Handler (gmap string (gmap string Field)) Hist :=
  _ ← checkDatasetExistenceS label;
  _ ← checkDatasetHasIntervalsS label;
  begin ← orDomainS label 0 begin;
  end_ ← orDomainS label 1 end_;
  match location with
  | Some location =>
      ixs ← readDb (λ db, getIndexes db label);
      match locations ixs !! location with
      | None =>
          hraise (HTTPException 404 ("No index for location: " +:+ location))
      | Some locationIndex =>
          match primitive with
          | Some primitive =>
              ixs ← readDb (λ db, getIndexes db label);
              match both ixs !! location with
              | None => hraise (KeyError location)
              | Some byPrimitive =>
                  match byPrimitive !! primitive with
                  | None =>
                      hraise (HTTPException 404
                        ("No index for location, primitive combination: "
                           +:+ location +:+ ", " +:+ primitive))
                  | Some _ =>
                      ixs ← readDb (λ db, getIndexes db label);
                      match both ixs !! location with
                      | None => hraise (KeyError location)
                      | Some byPrimitive =>
                          match byPrimitive !! primitive with
                          | Some indexObj =>
                              called (modeHelper mode bins begin end_ indexObj)
                          | None => hraise (KeyError primitive)
                          end
                      end
                  end
              end
          | None =>
              ixs ← readDb (λ db, getIndexes db label);
              match locations ixs !! location with
              | Some indexObj =>
                  called (modeHelper mode bins begin end_ indexObj)
              | None => hraise (KeyError location)
              end
          end
      end
  | None =>
      match primitive with
      | Some primitive =>
          ixs ← readDb (λ db, getIndexes db label);
          match primitives ixs !! primitive with
          | None =>
              hraise (HTTPException 404 ("No index for primitive: " +:+ primitive))
          | Some _ =>
              ixs ← readDb (λ db, getIndexes db label);
              match primitives ixs !! primitive with
              | Some indexObj =>
                  called (modeHelper mode bins begin end_ indexObj)
              | None => hraise (KeyError primitive)
              end
          end
      | None =>
          ixs ← readDb (λ db, getIndexes db label);
          called (modeHelper mode bins begin end_ (main ixs))
      end
  end.

(** A generator being iterated: the chunks it yields, how it stops, and the
    [db] it leaves. *)
Fixpoint intervalItemsS (label : string) (firstItem : bool) (ids : list string)
  (db : gmap string (gmap string Field))
  : (list Chunk * Outcome) * gmap string (gmap string Field) :=
  match ids with
  | [] => (([], Finished), db)
  | i :: rest =>
      let comma := if firstItem then [] else [Text ","] in
      match readDb (λ db, getInterval db label "intervals" i) db with
      | (Raise e, db1) => ((comma, Raised e), db1)
      | (Ok record, db1) =>
          let '((out, how), db2) := intervalItemsS label false rest db1 in
          ((comma ++ IntervalJson record :: out, how), db2)
      end
  end.

Definition intervalGeneratorS (label : string) (begin end_ : Time)
  (db : gmap string (gmap string Field))
  : (list Chunk * Outcome) * gmap string (gmap string Field) :=
  match readDb (λ db, getIndexes db label) db with
  | (Raise e, db1) => (([Text "["], Raised e), db1)
  | (Ok ixs, db1) =>
      let '((out, how), db2) :=
        intervalItemsS label true (iterOverlap (main ixs) begin end_) db1 in
      (match how with
       | Finished => (Text "[" :: out ++ [Text "]"], Finished)
       | _ => (Text "[" :: out, how)
       end, db2)
  end.

(** [StreamingResponse(generator)]: the generator is iterated once the
    handler has returned. *)
Definition streamed
  (generator : gmap string (gmap string Field)
               → (list Chunk * Outcome) * gmap string (gmap string Field))
  : Handler (gmap string (gmap string Field)) (list Chunk * Outcome) :=
  λ db, let '(chunks, db1) := generator db in (Ok chunks, db1).

Definition intervalsS (label : string) (begin end_ : option Time)
  : Handler (gmap string (gmap string Field)) (list Chunk * Outcome) :=
  _ ← checkDatasetExistenceS label;
  _ ← checkDatasetHasIntervalsS label;
  begin ← orDomainS label 0 begin;
  end_ ← orDomainS label 1 end_;
  streamed (intervalGeneratorS label begin end_).

Fixpoint traceLoopS (fuel : nat) (label : string) (begin end_ : Time)
  (targetInterval intervalObj : Interval) (oneBeyondRight : option Interval)
  (db : gmap string (gmap string Field))
  : (list Chunk * LoopExit) * gmap string (gmap string Field) :=
  match fuel with
  | O => (([], Unfinished), db)
  | S fuel' =>
      let '(first, oneBeyondRight) :=
        rightBoundary end_ targetInterval intervalObj oneBeyondRight in
      let current :=
        if decide (intervalObj = targetInterval) then []
        else [CommaId (intervalId intervalObj)] in
      match lastParentInterval intervalObj with
      | Some link =>
          let oneBeyondRight :=
            match oneBeyondRight with
            | Some _ => Some intervalObj
            | None => None
            end in
          let prevId := parent_id link in
          match readDb (λ db, getInterval db label "intervals" prevId) db with
          | (Raise e, db1) => ((first ++ current, Failed e), db1)
          | (Ok parent, db1) =>
              if ltb (Timestamp (leave parent)) begin
              then ((first ++ current, Broke parent), db1)
              else
                let '((rest, exit), db2) :=
                  traceLoopS fuel' label begin end_ targetInterval parent
                             oneBeyondRight db1 in
                ((first ++ current ++ rest, exit), db2)
          end
      | None => ((first ++ current, AtRoot), db)
      end
  end.

Definition intervalIdGeneratorS (fuel : nat) (label intervalId : string)
  (begin end_ : Time) (db : gmap string (gmap string Field))
  : (list Chunk * Outcome) * gmap string (gmap string Field) :=
  match readDb (λ db, getInterval db label "itervals" intervalId) db with
  | (Raise e, db1) => (([Text "["], Raised e), db1)
  | (Ok targetInterval, db1) =>
      let '((out, exit), db2) :=
        traceLoopS fuel label begin end_ targetInterval targetInterval
                   (Some targetInterval) db1 in
      let '(tail, how) := traceTail exit in
      ((Text "[" :: out ++ tail, how), db2)
  end.

Definition intervalTraceS (fuel : nat) (label intervalId : string)
  (begin end_ : option Time)
  : Handler (gmap string (gmap string Field)) (list Chunk * Outcome) :=
  _ ← checkDatasetExistenceS label;
  _ ← checkDatasetHasIntervalsS label;
  begin ← orDomainS label 0 begin;
  end_ ← orDomainS label 1 end_;
  streamed (intervalIdGeneratorS fuel label intervalId begin end_).

(** ** The handlers as transitions of the server *)

Inductive Request :=
| GetHistogram (label : string) (mode : HistogramMode) (bins : Z)
    (begin end_ : option Time) (location primitive : option string)
| GetIntervals (label : string) (begin end_ : option Time)
| GetIntervalTrace (label intervalId : string) (begin end_ : option Time)
| DeleteDataset (label : string).

Inductive Response :=
| HistogramResponse (r : result Hist)
| StreamingResponse (r : result (list Chunk * Outcome))
| NoContent.

(** Modelled from the spec: [Database.purgeDataset] is not under src/; a
    purge is the full teardown of the dataset, which leaves [db] without
    the label. *)
Definition purgeDataset (db : gmap string (gmap string Field)) (label : string)
  : gmap string (gmap string Field) :=
  delete label db.

(** One request against the global [db]: the [db] the handler leaves, and
    the response. *)
Definition serve (fuel : nat) (db : gmap string (gmap string Field))
  (req : Request) : gmap string (gmap string Field) * Response :=
  match req with
  | GetHistogram label mode bins begin end_ location primitive =>
      let '(r, db1) :=
        histogramS label mode bins begin end_ location primitive db in
      (db1, HistogramResponse r)
  | GetIntervals label begin end_ =>
      let '(r, db1) := intervalsS label begin end_ db in
      (db1, StreamingResponse r)
  | GetIntervalTrace label intervalId begin end_ =>
      let '(r, db1) := intervalTraceS fuel label intervalId begin end_ db in
      (db1, StreamingResponse r)
  | DeleteDataset label => (purgeDataset db label, NoContent)
  end.

Fixpoint serveAll (fuel : nat) (db : gmap string (gmap string Field))
  (reqs : list Request) : gmap string (gmap string Field) * list Response :=
  match reqs with
  | [] => (db, [])
  | req :: rest =>
      let '(db1, resp) := serve fuel db req in
      let '(db2, resps) := serveAll fuel db1 rest in
      (db2, resp :: resps)
  end.

Definition is_query (req : Request) : bool :=
  match req with
  | DeleteDataset _ => false
  | _ => true
  end.

(** What a request is answered with, as a function of the request and a
    snapshot of [db]. *)
Definition answerOf (fuel : nat) (db : gmap string (gmap string Field))
  (req : Request) : Response :=
  match req with
  | GetHistogram label mode bins begin end_ location primitive =>
      HistogramResponse
        (histogram db label mode bins begin end_ location primitive)
  | GetIntervals label begin end_ =>
      StreamingResponse (intervals db label begin end_)
  | GetIntervalTrace label intervalId begin end_ =>
      StreamingResponse (intervalTrace fuel db label intervalId begin end_)
  | DeleteDataset _ => NoContent
  end.

(** ** Vocabulary of the properties *)

(** The two emissions of the right-boundary check. *)
Definition is_right_boundary (c : Chunk) : bool :=
  match c with
  | TargetId _ | BeyondRight _ _ _ => true
  | _ => false
  end.

(** What the right-boundary check may emit in a walk from [targetInterval]:
    the target's id, or the marker of the interval visited last before the
    window was reached -- an interval other than the target that starts
    after the end of the window and whose parent link leads to an interval
    that does not. *)
Definition rightBoundaryOf (db : gmap string (gmap string Field))
  (label : string) (end_ : Time) (targetInterval : Interval)
  (c : Chunk) : Prop :=
  c = TargetId (intervalId targetInterval) ∨
  ∃ lastVisited link current,
    lastVisited ≠ targetInterval ∧
    leb (Timestamp (enter lastVisited)) end_ = false ∧
    lastParentInterval lastVisited = Some link ∧
    getInterval db label "intervals" (parent_id link) = Ok current ∧
    leb (Timestamp (enter current)) end_ = true ∧
    c = BeyondRight (intervalId lastVisited) (Location lastVisited)
                    (Timestamp (enter lastVisited)).

(** The intervals the loop visits, in order: the values [intervalObj] has
    at the head of the loop, from the one the walk starts at.  The loop
    moves on along the parent link while the parent is stored and does not
    end before [begin]. *)
Fixpoint visited (fuel : nat) (db : gmap string (gmap string Field))
  (label : string) (begin : Time) (intervalObj : Interval) : list Interval :=
  match fuel with
  | O => []
  | S fuel' =>
      intervalObj ::
      match lastParentInterval intervalObj with
      | Some link =>
          match getInterval db label "intervals" (parent_id link) with
          | Ok parent =>
              if ltb (Timestamp (leave parent)) begin then []
              else visited fuel' db label begin parent
          | Raise _ => []
          end
      | None => []
      end
  end.

(** The right-boundary emission as the spec words it, along the visited
    intervals: nothing while [current] starts after [end]; at the first
    [current] that starts at or before [end], the target's id if
    [lastVisited] is the target, else the beyondRight marker with the id,
    location and start timestamp of [lastVisited]; nothing afterwards.
    [lastVisited] is the target at first, then the interval visited
    before [current]. *)
Fixpoint rightBoundaryEmission (end_ : Time) (targetInterval : Interval)
  (lastVisited : Interval) (walk : list Interval) : list Chunk :=
  match walk with
  | [] => []
  | current :: rest =>
      if leb (Timestamp (enter current)) end_
      then
        [if decide (lastVisited = targetInterval)
         then TargetId (intervalId targetInterval)
         else BeyondRight (intervalId lastVisited) (Location lastVisited)
                          (Timestamp (enter lastVisited))]
      else rightBoundaryEmission end_ targetInterval current rest
  end.

Definition is_beyondLeft (c : Chunk) : bool :=
  match c with
  | BeyondLeft _ _ _ => true
  | _ => false
  end.

(** Items with exactly one comma between consecutive ones. *)
Fixpoint commaSeparated (items : list Chunk) : list Chunk :=
  match items with
  | [] => []
  | [item] => [item]
  | item :: rest => item :: Text "," :: commaSeparated rest
  end.

(** The method of an index that a mode selects. *)
Definition methodOf (mode : HistogramMode) (indexObj : RangeIndex)
  : Z → Time → Time → result Hist :=
  match mode with
  | utilization => computeUtilizationHistogram indexObj
  | count => computeCountHistogram indexObj
  end.

(** The index a selector pair names, when every selector given is known. *)
Definition selectedIndex (ixs : IndexSet) (location primitive : option string)
  : option RangeIndex :=
  match location, primitive with
  | None, None => Some (main ixs)
  | Some l, None => locations ixs !! l
  | None, Some p => primitives ixs !! p
  | Some l, Some p =>
      match locations ixs !! l with
      | Some _ => both ixs !! l ≫= (.!! p)
      | None => None
      end
  end.

(** The three selector failures of [histogram]. *)
Definition noLocation (location : string) : Exn :=
  HTTPException 404 ("No index for location: " +:+ location).

Definition noCombination (location primitive : string) : Exn :=
  HTTPException 404 ("No index for location, primitive combination: "
                       +:+ location +:+ ", " +:+ primitive).

Definition noPrimitive (primitive : string) : Exn :=
  HTTPException 404 ("No index for primitive: " +:+ primitive).

End Model.

(** ** Concrete datasets *)

(** A test double for an index object: it answers every histogram call
    with [h] and every overlap query with [ids]. *)
Definition stubIndex (h : result (list Z)) (ids : list string)
  : @RangeIndex Z (list Z) :=
  {| computeUtilizationHistogram := λ _ _ _, h;
     computeCountHistogram := λ _ _ _, h;
     iterOverlap := λ _ _, ids |}.

Definition stubIndexSet (ids : list string) : @IndexSet Z (list Z) :=
  {| main := stubIndex (Ok []) ids;
     locations := {[ "L0" := stubIndex (Ok [1%Z]) [] ]};
     primitives := {[ "add" := stubIndex (Ok [2%Z]) [] ]};
     both := {[ "L0" := {[ "add" := stubIndex (Ok [3%Z]) [] ]} ]} |}.

(** Scenario B: [T = [15,25)] whose parent is the root [P = [0,40)]. *)
Definition intervalP : @Interval Z :=
  {| intervalId := "P"; Location := "L0"; Primitive := "main";
     enter := {| Timestamp := 0%Z |}; leave := {| Timestamp := 40%Z |};
     lastParentInterval := None |}.

Definition intervalT : @Interval Z :=
  {| intervalId := "T"; Location := "L0"; Primitive := "add";
     enter := {| Timestamp := 15%Z |}; leave := {| Timestamp := 25%Z |};
     lastParentInterval :=
       Some {| parent_id := "P"; parent_location := "L0";
               parent_endTimestamp := 40%Z |} |}.

Definition storeB : gmap string (@Interval Z) :=
  {[ "T" := intervalT; "P" := intervalP ]}.

Definition datasetOf (store : gmap string (@Interval Z)) (ids : list string)
  : gmap string (@Field Z (list Z)) :=
  {[ "meta" := FMeta {| intervalDomain := Some [0%Z; 40%Z] |};
     "intervals" := FIntervals store;
     "intervalIndexes" := FIndexes (stubIndexSet ids) ]}.

Definition dbB : gmap string (gmap string (@Field Z (list Z))) :=
  {[ "run" := datasetOf storeB ["P"; "T"] ]}.

(** The same dataset after the key of the target lookup is made to exist:
    ['itervals'] bound to the store that ['intervals'] holds. *)
Definition dbB_both_keys : gmap string (gmap string (@Field Z (list Z))) :=
  {[ "run" := <["itervals" := FIntervals storeB]> (datasetOf storeB ["P"; "T"]) ]}.

(** [T = [15,25)] whose parent, the root [P = [0,10)], ends before the
    window [[20,30)] begins. *)
Definition intervalP_left : @Interval Z :=
  {| intervalId := "P"; Location := "L0"; Primitive := "main";
     enter := {| Timestamp := 0%Z |}; leave := {| Timestamp := 10%Z |};
     lastParentInterval := None |}.

Definition intervalT_late : @Interval Z :=
  {| intervalId := "T"; Location := "L0"; Primitive := "add";
     enter := {| Timestamp := 15%Z |}; leave := {| Timestamp := 25%Z |};
     lastParentInterval :=
       Some {| parent_id := "P"; parent_location := "L0";
               parent_endTimestamp := 10%Z |} |}.

Definition dbLeftRoot : gmap string (gmap string (@Field Z (list Z))) :=
  {[ "run" := datasetOf {[ "T" := intervalT_late; "P" := intervalP_left ]} [] ]}.

(** A chain [T -> P -> G] in which [P] lies left of the window and has a
    parent of its own. *)
Definition intervalG : @Interval Z :=
  {| intervalId := "G"; Location := "L1"; Primitive := "main";
     enter := {| Timestamp := 0%Z |}; leave := {| Timestamp := 12%Z |};
     lastParentInterval := None |}.

Definition intervalP_mid : @Interval Z :=
  {| intervalId := "P"; Location := "L0"; Primitive := "main";
     enter := {| Timestamp := 2%Z |}; leave := {| Timestamp := 10%Z |};
     lastParentInterval :=
       Some {| parent_id := "G"; parent_location := "L1";
               parent_endTimestamp := 12%Z |} |}.

Definition dbLeftChain : gmap string (gmap string (@Field Z (list Z))) :=
  {[ "run" := datasetOf {[ "T" := intervalT_late; "P" := intervalP_mid;
                           "G" := intervalG ]} [] ]}.

(** A dataset that exists but was never given interval data. *)
Definition dbBare : gmap string (gmap string (@Field Z (list Z))) :=
  {[ "bare" := {[ "meta" := FMeta {| intervalDomain := None |} ]} ]}.

(** ** The getters of a dataset's parts *)

Section Getters.

Context {Time : Type} {Hist : Type}.

(** [get_dataset]: the dataset's [meta], whatever it holds. *)
Definition get_dataset (db : gmap string (gmap string (@Field Time Hist)))
  (label : string) : result (@Field Time Hist) :=
  _ ← checkDatasetExistence db label;
  ds ← getDataset db label;
  match ds !! "meta" with
  | Some meta => Ok meta
  | None => Raise (KeyError "meta")
  end.

Definition get_physl (db : gmap string (gmap string (@Field Time Hist)))
  (label : string) : result (@Field Time Hist) :=
  _ ← checkDatasetExistence db label;
  ds ← getDataset db label;
  match ds !! "physl" with
  | None =>
      Raise (HTTPException 404 "Dataset does not include physl source code")
  | Some code => Ok code
  end.

Definition get_python (db : gmap string (gmap string (@Field Time Hist)))
  (label : string) : result (@Field Time Hist) :=
  _ ← checkDatasetExistence db label;
  ds ← getDataset db label;
  match ds !! "python" with
  | None =>
      Raise (HTTPException 404 "Dataset does not include python source code")
  | Some code => Ok code
  end.

Definition get_cpp (db : gmap string (gmap string (@Field Time Hist)))
  (label : string) : result (@Field Time Hist) :=
  _ ← checkDatasetExistence db label;
  ds ← getDataset db label;
  match ds !! "cpp" with
  | None =>
      Raise (HTTPException 404 "Dataset does not include C++ source code")
  | Some code => Ok code
  end.

End Getters.

(** ** Vocabulary of the walk's properties *)

Section Ancestry.

Context {Time : Type} `{!EqDecision Time}.
Context {Hist : Type}.
Variable ltb : Time → Time → bool.

(** [chain] lists the successive parents of [x]: each is what the parent
    link of the one before it looks up in the store. *)
Fixpoint ancestry (db : gmap string (gmap string (@Field Time Hist)))
  (label : string) (x : Interval) (chain : list Interval) : Prop :=
  match chain with
  | [] => True
  | parent :: rest =>
      match lastParentInterval x with
      | Some link =>
          getInterval db label "intervals" (parent_id link) = Ok parent
      | None => False
      end ∧ ancestry db label parent rest
  end.

(** The last interval of a chain that starts at [x]. *)
Definition topOf (x : @Interval Time) (chain : list Interval) : Interval :=
  default x (last chain).

(** The plain ids the loop yields for a chain of ancestors. *)
Definition plainIds (chain : list (@Interval Time)) : list (@Chunk Time) :=
  (λ a, CommaId (intervalId a)) <$> chain.

(** An ancestor the walk passes: it is not the target and does not end
    before [begin]. *)
Definition passed (begin : Time) (targetInterval a : @Interval Time) : Prop :=
  a ≠ targetInterval ∧ ltb (Timestamp (leave a)) begin = false.

(** The walk goes no further than [top]: whatever its parent link looks up
    ends before [begin]. *)
Definition walkEnds (db : gmap string (gmap string (@Field Time Hist)))
  (label : string) (begin : Time) (top : @Interval Time) : Prop :=
  ∀ link s,
    lastParentInterval top = Some link →
    getInterval db label "intervals" (parent_id link) = Ok s →
    ltb (Timestamp (leave s)) begin = true.

(** How the loop is left at [top], when the walk goes no further. *)
Definition exitAt (db : gmap string (gmap string (@Field Time Hist)))
  (label : string) (top : @Interval Time) : LoopExit :=
  match lastParentInterval top with
  | None => AtRoot
  | Some link =>
      match getInterval db label "intervals" (parent_id link) with
      | Ok s => Broke s
      | Raise e => Failed e
      end
  end.

(** A stream that holds the closing bracket only as the last chunk of a
    generator that finished. *)
Definition closedOnlyWhenFinished (stream : list (@Chunk Time) * Outcome)
  : Prop :=
  (stream.2 = Finished ∧
   ∃ items, stream.1 = Text "[" :: items ++ [Text "]"] ∧ Text "]" ∉ items) ∨
  (stream.2 ≠ Finished ∧ Text "]" ∉ stream.1).

(** A plain id of the loop names a stored interval other than the target
    that does not end before [begin]. *)
Definition plainAncestor (db : gmap string (gmap string (@Field Time Hist)))
  (label : string) (begin : Time) (targetInterval : @Interval Time)
  (c : @Chunk Time) : Prop :=
  ∀ id, c = CommaId id →
    ∃ a key,
      getInterval db label "intervals" key = Ok a ∧
      intervalId a = id ∧
      a ≠ targetInterval ∧
      ltb (Timestamp (leave a)) begin = false.

End Ancestry.

(** ** More concrete datasets *)

(** An interval that names itself as its parent. *)
Definition intervalLoop : @Interval Z :=
  {| intervalId := "S"; Location := "L0"; Primitive := "spin";
     enter := {| Timestamp := 5%Z |}; leave := {| Timestamp := 35%Z |};
     lastParentInterval :=
       Some {| parent_id := "S"; parent_location := "L0";
               parent_endTimestamp := 35%Z |} |}.

Definition dbLoop : gmap string (gmap string (@Field Z (list Z))) :=
  {[ "run" := datasetOf {[ "S" := intervalLoop ]} [] ]}.

(** A chain [T -> A -> B] in which [T] and [A] start after the window
    [[20,30)] ends and the root [B] spans it. *)
Definition intervalB : @Interval Z :=
  {| intervalId := "B"; Location := "L0"; Primitive := "main";
     enter := {| Timestamp := 0%Z |}; leave := {| Timestamp := 90%Z |};
     lastParentInterval := None |}.

Definition intervalA : @Interval Z :=
  {| intervalId := "A"; Location := "L0"; Primitive := "mul";
     enter := {| Timestamp := 40%Z |}; leave := {| Timestamp := 80%Z |};
     lastParentInterval :=
       Some {| parent_id := "B"; parent_location := "L0";
               parent_endTimestamp := 90%Z |} |}.

Definition intervalT_right : @Interval Z :=
  {| intervalId := "T"; Location := "L0"; Primitive := "add";
     enter := {| Timestamp := 50%Z |}; leave := {| Timestamp := 60%Z |};
     lastParentInterval :=
       Some {| parent_id := "A"; parent_location := "L0";
               parent_endTimestamp := 80%Z |} |}.

Definition dbRight : gmap string (gmap string (@Field Z (list Z))) :=
  {[ "run" := datasetOf {[ "T" := intervalT_right; "A" := intervalA;
                           "B" := intervalB ]} ["B"; "Q"; "A"] ]}.

(** The store of scenario B without [P]: the parent link of [T] dangles. *)
Definition dbDangling : gmap string (gmap string (@Field Z (list Z))) :=
  {[ "run" := datasetOf {[ "T" := intervalT ]} ["T"] ]}.

(** Indexed datasets whose [meta] is missing, or has a one-element
    [intervalDomain]. *)
Definition dbNoMeta : gmap string (gmap string (@Field Z (list Z))) :=
  {[ "run" := delete "meta" (datasetOf storeB ["P"; "T"]) ]}.

Definition dbShortDomain : gmap string (gmap string (@Field Z (list Z))) :=
  {[ "run" := <["meta" := FMeta {| intervalDomain := Some [0%Z] |}]>
                (datasetOf storeB ["P"; "T"]) ]}.

(** * Properties *)

Section Properties.

Context {Time : Type} `{!EqDecision Time}.
Context {Hist : Type}.
Variable leb : Time → Time → bool.
Variable ltb : Time → Time → bool.

Implicit Types (db : gmap string (gmap string (@Field Time Hist))).
Implicit Types (ds : gmap string (@Field Time Hist)).
Implicit Types (label : string).

Ltac run := cbn [mbind mret result_bind result_ret].

(** ** The shared prologue of the three handlers *)

Lemma getDataset_Some db label ds :
  db !! label = Some ds → getDataset db label = Ok ds.
Proof. intros H. unfold getDataset. by rewrite H. Qed.

Lemma checkDatasetExistence_Some db label ds :
  db !! label = Some ds → checkDatasetExistence db label = Ok tt.
Proof. intros H. unfold checkDatasetExistence. by rewrite H. Qed.

Lemma checkDatasetExistence_None db label :
  db !! label = None →
  checkDatasetExistence db label = Raise (HTTPException 404 "Dataset not found").
Proof. intros H. unfold checkDatasetExistence. by rewrite H. Qed.

Lemma checkDatasetHasIntervals_Some db label ds fi fx :
  db !! label = Some ds →
  ds !! "intervals" = Some fi → ds !! "intervalIndexes" = Some fx →
  checkDatasetHasIntervals db label = Ok tt.
Proof.
  intros H Hi Hx. unfold checkDatasetHasIntervals.
  rewrite (getDataset_Some _ _ _ H). run. by rewrite Hi, Hx.
Qed.

Lemma checkDatasetHasIntervals_missing db label ds :
  db !! label = Some ds →
  ds !! "intervals" = None ∨ ds !! "intervalIndexes" = None →
  checkDatasetHasIntervals db label =
    Raise (HTTPException 404 "Dataset does not contain indexed interval data").
Proof.
  intros H Hmiss. unfold checkDatasetHasIntervals.
  rewrite (getDataset_Some _ _ _ H). run.
  destruct Hmiss as [-> | ->]; [done |].
  by destruct (ds !! "intervals").
Qed.

Lemma getIndexes_Some db label ds ixs :
  db !! label = Some ds → ds !! "intervalIndexes" = Some (FIndexes ixs) →
  getIndexes db label = Ok ixs.
Proof.
  intros H Hx. unfold getIndexes.
  rewrite (getDataset_Some _ _ _ H). run. by rewrite Hx.
Qed.

Lemma intervalDomainAt_Some db label ds m dom i t :
  db !! label = Some ds → ds !! "meta" = Some (FMeta m) →
  intervalDomain m = Some dom → dom !! i = Some t →
  intervalDomainAt db label i = Ok t.
Proof.
  intros H Hm Hd Hi. unfold intervalDomainAt.
  rewrite (getDataset_Some _ _ _ H). run. by rewrite Hm, Hd, Hi.
Qed.

Lemma orDomain_default db label ds m dom i t bound :
  db !! label = Some ds → ds !! "meta" = Some (FMeta m) →
  intervalDomain m = Some dom → dom !! i = Some t →
  orDomain db label i bound = Ok (default t bound).
Proof.
  intros H Hm Hd Hi. destruct bound as [b|]; [done |].
  by apply (intervalDomainAt_Some _ _ ds m dom).
Qed.

(** The prologue of a handler, once the dataset passes both checks and
    both bounds are resolved. *)
Lemma intervals_resolved db label ds fi fx begin end_ b e :
  db !! label = Some ds →
  ds !! "intervals" = Some fi → ds !! "intervalIndexes" = Some fx →
  orDomain db label 0 begin = Ok b → orDomain db label 1 end_ = Ok e →
  intervals db label begin end_ = Ok (intervalGenerator db label b e).
Proof.
  intros H Hi Hx Hb He. unfold intervals.
  rewrite (checkDatasetExistence_Some _ _ _ H). run.
  rewrite (checkDatasetHasIntervals_Some _ _ _ _ _ H Hi Hx). run.
  by rewrite Hb, He.
Qed.

Lemma intervalTrace_resolved fuel db label ds fi fx intervalId begin end_ b e :
  db !! label = Some ds →
  ds !! "intervals" = Some fi → ds !! "intervalIndexes" = Some fx →
  orDomain db label 0 begin = Ok b → orDomain db label 1 end_ = Ok e →
  intervalTrace leb ltb fuel db label intervalId begin end_ =
    Ok (intervalIdGenerator leb ltb fuel db label intervalId b e).
Proof.
  intros H Hi Hx Hb He. unfold intervalTrace.
  rewrite (checkDatasetExistence_Some _ _ _ H). run.
  rewrite (checkDatasetHasIntervals_Some _ _ _ _ _ H Hi Hx). run.
  by rewrite Hb, He.
Qed.

(** [getattr] by the titled mode name finds the method of that mode. *)
Lemma modeHelper_method mode bins (b e : Time) (indexObj : @RangeIndex Time Hist) :
  modeHelper mode bins b e indexObj = methodOf mode indexObj bins b e.
Proof. by destruct mode. Qed.

(** What [histogram] does after its prologue, selector by selector. *)
Lemma histogram_resolved db label ds fi ixs mode bins begin end_ b e
    (location primitive : option string) :
  db !! label = Some ds →
  ds !! "intervals" = Some fi → ds !! "intervalIndexes" = Some (FIndexes ixs) →
  orDomain db label 0 begin = Ok b → orDomain db label 1 end_ = Ok e →
  histogram db label mode bins begin end_ location primitive =
    match location, primitive with
    | None, None => methodOf mode (main ixs) bins b e
    | Some l, None =>
        match locations ixs !! l with
        | Some indexObj => methodOf mode indexObj bins b e
        | None => Raise (noLocation l)
        end
    | None, Some p =>
        match primitives ixs !! p with
        | Some indexObj => methodOf mode indexObj bins b e
        | None => Raise (noPrimitive p)
        end
    | Some l, Some p =>
        match locations ixs !! l with
        | None => Raise (noLocation l)
        | Some _ =>
            match both ixs !! l with
            | None => Raise (KeyError l)
            | Some byPrimitive =>
                match byPrimitive !! p with
                | Some indexObj => methodOf mode indexObj bins b e
                | None => Raise (noCombination l p)
                end
            end
        end
    end.
Proof.
  intros H Hi Hx Hb He. unfold histogram.
  rewrite (checkDatasetExistence_Some _ _ _ H). run.
  rewrite (checkDatasetHasIntervals_Some _ _ _ _ _ H Hi Hx). run.
  rewrite Hb, He. run.
  rewrite (getIndexes_Some _ _ _ _ H Hx). run.
  destruct location as [l|], primitive as [p|]; run.
  - destruct (locations ixs !! l); [| done].
    destruct (both ixs !! l) as [byPrimitive|]; [| done].
    destruct (byPrimitive !! p); [| done]. apply modeHelper_method.
  - destruct (locations ixs !! l); [| done]. apply modeHelper_method.
  - destruct (primitives ixs !! p); [| done]. apply modeHelper_method.
  - apply modeHelper_method.
Qed.

Lemma selector_failures_distinct l l' p p' :
  noLocation l ≠ noCombination l' p' ∧
  noLocation l ≠ noPrimitive p ∧
  noCombination l' p' ≠ noPrimitive p.
Proof. unfold noLocation, noCombination, noPrimitive. by repeat split. Qed.

(** ** Dataset checks *)

(** C8: an unknown dataset label fails each of the three query handlers
    with 404 'Dataset not found'; a dataset that exists but lacks the
    ['intervals'] or the ['intervalIndexes'] key fails each of them with 404
    'Dataset does not contain indexed interval data'.  The existence check
    comes first: an unknown label gets the first error, never the second. *)
Theorem dataset_checks_guard_every_query fuel db label :
  (db !! label = None →
   ∀ mode bins begin end_ location primitive intervalId,
     let notFound := HTTPException 404 "Dataset not found" in
     histogram db label mode bins begin end_ location primitive = Raise notFound ∧
     intervals db label begin end_ = Raise notFound ∧
     intervalTrace leb ltb fuel db label intervalId begin end_ = Raise notFound ∧
     notFound ≠
       HTTPException 404 "Dataset does not contain indexed interval data") ∧
  (∀ ds, db !! label = Some ds →
   ds !! "intervals" = None ∨ ds !! "intervalIndexes" = None →
   ∀ mode bins begin end_ location primitive intervalId,
     let noIndex :=
       HTTPException 404 "Dataset does not contain indexed interval data" in
     histogram db label mode bins begin end_ location primitive = Raise noIndex ∧
     intervals db label begin end_ = Raise noIndex ∧
     intervalTrace leb ltb fuel db label intervalId begin end_ = Raise noIndex).
Proof.
  split.
  - intros H *. unfold histogram, intervals, intervalTrace.
    rewrite (checkDatasetExistence_None _ _ H). by run.
  - intros ds H Hmiss *. unfold histogram, intervals, intervalTrace.
    rewrite (checkDatasetExistence_Some _ _ _ H). run.
    rewrite (checkDatasetHasIntervals_missing _ _ _ H Hmiss). by run.
Qed.

(** ** Default window *)

(** C7: in each of the three query handlers an omitted [begin] is the
    first element and an omitted [end] the second element of the dataset's
    [meta.intervalDomain]; a bound that is given is used as it is.  The
    resolved bounds [b] and [e] are what the histogram method, the overlap
    iteration and the trace walk receive. *)
Theorem omitted_bounds_default_to_domain
    fuel db label ds fi ixs m dom lo hi begin end_ :
  db !! label = Some ds →
  ds !! "intervals" = Some fi →
  ds !! "intervalIndexes" = Some (FIndexes ixs) →
  ds !! "meta" = Some (FMeta m) →
  intervalDomain m = Some dom → dom !! 0 = Some lo → dom !! 1 = Some hi →
  let b := match begin with Some t => t | None => lo end in
  let e := match end_ with Some t => t | None => hi end in
  (∀ mode bins location primitive,
     histogram db label mode bins begin end_ location primitive =
     histogram db label mode bins (Some b) (Some e) location primitive) ∧
  (∀ mode bins,
     histogram db label mode bins begin end_ None None =
     methodOf mode (main ixs) bins b e) ∧
  intervals db label begin end_ = Ok (intervalGenerator db label b e) ∧
  (∀ intervalId,
     intervalTrace leb ltb fuel db label intervalId begin end_ =
     Ok (intervalIdGenerator leb ltb fuel db label intervalId b e)).
Proof.
  intros H Hi Hx Hm Hd H0 H1 b e.
  assert (Hb : orDomain db label 0 begin = Ok b).
  { rewrite (orDomain_default _ _ _ _ _ _ _ _ H Hm Hd H0). by destruct begin. }
  assert (He : orDomain db label 1 end_ = Ok e).
  { rewrite (orDomain_default _ _ _ _ _ _ _ _ H Hm Hd H1). by destruct end_. }
  repeat split.
  - intros. rewrite (histogram_resolved _ _ _ _ _ _ _ _ _ _ _ _ _ H Hi Hx Hb He).
    by rewrite (histogram_resolved _ _ _ _ _ _ _ (Some b) (Some e) b e _ _ H Hi Hx).
  - intros. by rewrite (histogram_resolved _ _ _ _ _ _ _ _ _ _ _ _ _ H Hi Hx Hb He).
  - by apply (intervals_resolved _ _ ds fi (FIndexes ixs)).
  - intros. by apply (intervalTrace_resolved _ _ _ ds fi (FIndexes ixs)).
Qed.

(** ** Selector dispatch *)

(** C2: on an existing, indexed dataset [histogram] runs the method of the
    mode on the main index when no selector is given, on the index of the
    location when only a location is given, on the index of the primitive
    when only a primitive is given, and on the index of the pair when both
    are given.  An unknown location, an unknown primitive for a known
    location, and an unknown primitive each raise a 404 of their own, and the
    three are pairwise different.  The index set is taken with an entry in
    ['both'] for every location it has an index for. *)
Theorem histogram_selector_dispatch
    db label ds fi ixs mode bins begin end_ b e :
  db !! label = Some ds →
  ds !! "intervals" = Some fi →
  ds !! "intervalIndexes" = Some (FIndexes ixs) →
  orDomain db label 0 begin = Ok b → orDomain db label 1 end_ = Ok e →
  (∀ l, is_Some (locations ixs !! l) → is_Some (both ixs !! l)) →
  let h := histogram db label mode bins begin end_ in
  h None None = methodOf mode (main ixs) bins b e ∧
  (∀ l indexObj, locations ixs !! l = Some indexObj →
     h (Some l) None = methodOf mode indexObj bins b e) ∧
  (∀ p indexObj, primitives ixs !! p = Some indexObj →
     h None (Some p) = methodOf mode indexObj bins b e) ∧
  (∀ l p byPrimitive indexObj,
     is_Some (locations ixs !! l) → both ixs !! l = Some byPrimitive →
     byPrimitive !! p = Some indexObj →
     h (Some l) (Some p) = methodOf mode indexObj bins b e) ∧
  (∀ l primitive, locations ixs !! l = None →
     h (Some l) primitive = Raise (noLocation l)) ∧
  (∀ l p, is_Some (locations ixs !! l) →
     (∀ byPrimitive, both ixs !! l = Some byPrimitive → byPrimitive !! p = None) →
     h (Some l) (Some p) = Raise (noCombination l p)) ∧
  (∀ p, primitives ixs !! p = None → h None (Some p) = Raise (noPrimitive p)) ∧
  (∀ l l' p p',
     noLocation l ≠ noCombination l' p' ∧
     noLocation l ≠ noPrimitive p ∧
     noCombination l' p' ≠ noPrimitive p).
Proof.
  intros H Hi Hx Hb He Hwf h. subst h.
  pose proof (histogram_resolved db label ds fi ixs mode bins begin end_ b e) as R.
  repeat apply conj.
  - by rewrite (R None None).
  - intros l indexObj Hl. rewrite (R (Some l) None); [| done..].
    by rewrite Hl.
  - intros p indexObj Hp. rewrite (R None (Some p)); [| done..].
    by rewrite Hp.
  - intros l p byPrimitive indexObj [? Hl] Hbl Hp. rewrite (R (Some l) (Some p)); [| done..]. by rewrite Hl, Hbl, Hp.
  - intros l primitive Hl. rewrite (R (Some l) primitive); [| done..].
    destruct primitive; by rewrite Hl.
  - intros l p Hl Hnone. rewrite (R (Some l) (Some p)); [| done..].
    destruct (Hwf l Hl) as [byPrimitive Hbl]. destruct Hl as [? Hl].
    by rewrite Hl, Hbl, (Hnone _ Hbl).
  - intros p Hp. rewrite (R None (Some p)); [| done..]. by rewrite Hp.
  - intros. apply selector_failures_distinct.
Qed.

(** ** Window validation *)

(** C3, as the code has it: [histogram] validates neither [bins] nor the
    order of the bounds.  For every [bins] and every resolved window, once
    the dataset passes its checks and the selectors name an index, the
    response is what that index's method of the mode returns on
    [(bins, begin, end)], passed on unchanged. *)
Theorem histogram_forwards_bins_and_window
    db label ds fi ixs mode bins begin end_ b e location primitive indexObj :
  db !! label = Some ds →
  ds !! "intervals" = Some fi →
  ds !! "intervalIndexes" = Some (FIndexes ixs) →
  orDomain db label 0 begin = Ok b → orDomain db label 1 end_ = Ok e →
  selectedIndex ixs location primitive = Some indexObj →
  histogram db label mode bins begin end_ location primitive =
    methodOf mode indexObj bins b e.
Proof.
  intros H Hi Hx Hb He Hsel.
  rewrite (histogram_resolved _ _ _ _ _ _ _ _ _ _ _ _ _ H Hi Hx Hb He).
  destruct location as [l|], primitive as [p|]; simpl in Hsel.
  - destruct (locations ixs !! l); [| done].
    destruct (both ixs !! l) as [byPrimitive|]; [| done].
    simpl in Hsel. by rewrite Hsel.
  - by rewrite Hsel.
  - by rewrite Hsel.
  - by simplify_eq.
Qed.

(** ** Interval listing *)

Lemma getInterval_Some db label ds key store i record :
  db !! label = Some ds → ds !! key = Some (FIntervals store) →
  store !! i = Some record →
  getInterval db label key i = Ok record.
Proof.
  intros H Hk Hi. unfold getInterval.
  rewrite (getDataset_Some _ _ _ H). run. by rewrite Hk, Hi.
Qed.

Lemma commaSeparated_cons (c : @Chunk Time) cs :
  commaSeparated (c :: cs) = c :: flat_map (λ x, [Text ","; x]) cs.
Proof.
  revert c. induction cs as [|d cs IH]; intros c; [done |].
  change (commaSeparated (c :: d :: cs))
    with (c :: Text "," :: commaSeparated (d :: cs)).
  by rewrite IH.
Qed.

Lemma intervalItems_stored db label ds store ids firstItem :
  db !! label = Some ds → ds !! "intervals" = Some (FIntervals store) →
  Forall (λ i, is_Some (store !! i)) ids →
  intervalItems db label firstItem ids =
    ((if firstItem then commaSeparated (IntervalJson <$> omap (store !!.) ids)
      else flat_map (λ x, [Text ","; x]) (IntervalJson <$> omap (store !!.) ids)),
     Finished).
Proof.
  intros H Hs Hall. revert firstItem.
  induction Hall as [|i ids [record Hi] _ IH]; intros firstItem.
  - by destruct firstItem.
  - cbn [intervalItems omap list_omap]. rewrite Hi.
    rewrite (getInterval_Some _ _ _ _ _ _ _ H Hs Hi), (IH false).
    destruct firstItem; [| done].
    cbn [fmap list_fmap]. by rewrite commaSeparated_cons.
Qed.

Lemma omap_stored (store : gmap string (@Interval Time)) ids :
  Forall (λ i, is_Some (store !! i)) ids →
  Forall2 (λ i record, store !! i = Some record) ids (omap (store !!.) ids).
Proof.
  induction 1 as [|i ids [record Hi] _ IH]; [constructor |].
  cbn [omap list_omap]. rewrite Hi. by constructor.
Qed.

Lemma append_assoc (s1 s2 s3 : string) :
  (s1 +:+ s2) +:+ s3 = s1 +:+ (s2 +:+ s3).
Proof.
  induction s1 as [|c s1 IH]; [done |].
  change (String c ((s1 +:+ s2) +:+ s3) = String c (s1 +:+ (s2 +:+ s3))).
  by rewrite IH.
Qed.

Lemma body_cons json_dumps json_dumps_interval (c : @Chunk Time) cs :
  body json_dumps json_dumps_interval (c :: cs) =
  render json_dumps json_dumps_interval c
    +:+ body json_dumps json_dumps_interval cs.
Proof. done. Qed.

Lemma body_commaSeparated json_dumps json_dumps_interval
    (records : list (@Interval Time)) tl :
  body json_dumps json_dumps_interval
       (commaSeparated (IntervalJson <$> records) ++ tl) =
  String.concat "," (json_dumps_interval <$> records)
    +:+ body json_dumps json_dumps_interval tl.
Proof.
  destruct records as [|x l]; [done |]. revert x.
  induction l as [|y l IH]; intros x; [done |].
  change (commaSeparated (IntervalJson <$> x :: y :: l))
    with (IntervalJson x :: Text "," :: commaSeparated (IntervalJson <$> y :: l)).
  change (String.concat "," (json_dumps_interval <$> x :: y :: l))
    with (json_dumps_interval x +:+ "," +:+
          String.concat "," (json_dumps_interval <$> y :: l)).
  cbn [app]. rewrite !body_cons, (IH y). cbn [render].
  by rewrite !append_assoc.
Qed.

(** C10: on an indexed dataset whose main index yields only stored ids, the
    interval listing finishes and streams a well-formed array for every
    window: an opening bracket, the records of the overlapping intervals in
    the order of the index with exactly one comma between consecutive ones
    (none before the first, none after the last), and a closing bracket.
    Its text is the records' JSON joined by commas, between brackets; with
    no overlapping interval it is exactly '[]'. *)
Theorem interval_listing_is_well_formed_array
    db label ds store ixs begin end_ b e :
  db !! label = Some ds →
  ds !! "intervals" = Some (FIntervals store) →
  ds !! "intervalIndexes" = Some (FIndexes ixs) →
  orDomain db label 0 begin = Ok b → orDomain db label 1 end_ = Ok e →
  Forall (λ i, is_Some (store !! i)) (iterOverlap (main ixs) b e) →
  let ids := iterOverlap (main ixs) b e in
  let records := omap (store !!.) ids in
  let chunks := Text "[" :: commaSeparated (IntervalJson <$> records) ++ [Text "]"] in
  Forall2 (λ i record, store !! i = Some record) ids records ∧
  intervals db label begin end_ = Ok (chunks, Finished) ∧
  (∀ json_dumps json_dumps_interval,
     body json_dumps json_dumps_interval chunks =
     "[" +:+ String.concat "," (json_dumps_interval <$> records) +:+ "]") ∧
  (ids = [] →
   intervals db label begin end_ = Ok ([Text "["; Text "]"], Finished) ∧
   ∀ json_dumps json_dumps_interval,
     body json_dumps json_dumps_interval chunks = "[]").
Proof.
  intros H Hs Hx Hb He Hall ids records chunks.
  assert (Hrun : intervals db label begin end_ = Ok (chunks, Finished)).
  { rewrite (intervals_resolved _ _ _ _ _ _ _ _ _ H Hs Hx Hb He).
    unfold intervalGenerator. rewrite (getIndexes_Some _ _ _ _ H Hx).
    by rewrite (intervalItems_stored _ _ _ _ _ true H Hs Hall). }
  assert (Hbody : ∀ json_dumps json_dumps_interval,
     body json_dumps json_dumps_interval chunks =
     "[" +:+ String.concat "," (json_dumps_interval <$> records) +:+ "]").
  { intros. unfold chunks. by rewrite body_cons, body_commaSeparated. }
  repeat apply conj; [by apply omap_stored | done | done |].
  intros Hnil. split.
  - rewrite Hrun. unfold chunks, records. by rewrite Hnil.
  - intros. rewrite Hbody. unfold records. by rewrite Hnil.
Qed.

(** ** Trace walk: the right boundary *)

(** The loop invariant behind C5.  While [oneBeyondRight] is still set it
    holds the target, or an interval that starts after the window's end and
    whose parent link leads to [intervalObj]; once it is [None] the loop
    emits nothing for the right boundary. *)
Lemma traceLoop_right_boundary fuel db label b e target :
  ∀ intervalObj oneBeyondRight,
    (∀ o, oneBeyondRight = Some o →
          o = target ∨
          (leb (Timestamp (enter o)) e = false ∧
           ∃ link, lastParentInterval o = Some link ∧
                   getInterval db label "intervals" (parent_id link)
                     = Ok intervalObj)) →
    let out :=
      (traceLoop leb ltb fuel db label b e target intervalObj oneBeyondRight).1 in
    length (filter (λ c, is_right_boundary c = true) out)
      ≤ (if oneBeyondRight is Some _ then 1 else 0) ∧
    Forall (λ c, is_right_boundary c = true →
                 rightBoundaryOf leb db label e target c) out.
Proof.
  induction fuel as [|fuel IH]; intros cur obr Hobr.
  { cbn. split; [destruct obr; lia | constructor]. }
  cbn [traceLoop].
  set (current := if decide (cur = target) then []
                  else [CommaId (intervalId cur)] : list (@Chunk Time)).
  assert (Hcur : filter (λ c, is_right_boundary c = true) current = []
                 ∧ Forall (λ c, is_right_boundary c = true →
                                rightBoundaryOf leb db label e target c) current).
  { unfold current. destruct (decide (cur = target)); split; try done.
    by apply Forall_singleton. }
  destruct Hcur as [Hcur0 HcurF].
  destruct (rightBoundary leb e target cur obr) as [first obr1] eqn:Hrb.
  assert (Hfirst :
    length (filter (λ c, is_right_boundary c = true) first)
      + (if obr1 is Some _ then 1 else 0) ≤ (if obr is Some _ then 1 else 0)
    ∧ Forall (λ c, is_right_boundary c = true →
                   rightBoundaryOf leb db label e target c) first
    ∧ (∀ o, obr1 = Some o → leb (Timestamp (enter cur)) e = false)).
  { unfold rightBoundary in Hrb. destruct obr as [o|]; [| by simplify_eq].
    destruct (leb (Timestamp (enter cur)) e) eqn:Hle; [| by simplify_eq].
    destruct (decide (o = target)) as [-> | Hne]; simplify_eq.
    - split; [vm_compute; lia | split; [| done]].
      apply Forall_singleton. intros _. by left.
    - split; [vm_compute; lia | split; [| done]].
      apply Forall_singleton. intros _. right.
      destruct (Hobr o eq_refl) as [? | (Hlate & link & Hlink & Hget)];
        [done |].
      by exists o, link, cur. }
  destruct Hfirst as (Hlen & HfirstF & Hkept).
  destruct (lastParentInterval cur) as [link|] eqn:Hlink; cbn [fst].
  - destruct (getInterval db label "intervals" (parent_id link))
      as [parent|err] eqn:Hget; cbn [fst].
    + destruct (ltb (Timestamp (leave parent)) b); cbn [fst].
      * rewrite filter_app, length_app, Hcur0, Forall_app. cbn [length].
        split; [| done]. destruct obr1; lia.
      * set (obr2 := match obr1 with Some _ => Some cur | None => None end).
        assert (Hobr2 : ∀ o, obr2 = Some o →
                  o = target ∨
                  (leb (Timestamp (enter o)) e = false ∧
                   ∃ link, lastParentInterval o = Some link ∧
                           getInterval db label "intervals" (parent_id link)
                             = Ok parent)).
        { unfold obr2. intros o Ho. destruct obr1 as [o1|]; [| done].
          simplify_eq. right. split; [by apply (Hkept o1) |]. by exists link. }
        destruct (IH parent obr2 Hobr2) as [IHlen IHF].
        destruct (traceLoop leb ltb fuel db label b e target parent obr2)
          as [rest ex]; cbn [fst] in *.
        rewrite !filter_app, !length_app, Hcur0, !Forall_app. cbn [length].
        split; [| done]. unfold obr2 in IHlen. destruct obr1; lia.
    + rewrite filter_app, length_app, Hcur0, Forall_app. cbn [length].
      split; [| done]. destruct obr1; lia.
  - rewrite filter_app, length_app, Hcur0, Forall_app. cbn [length].
    split; [| done]. destruct obr1; lia.
Qed.

(** Which emission the right-boundary check makes, and when: what the loop
    yields for the right boundary is what the spec's rule gives along the
    intervals the loop visits. *)
Lemma traceLoop_right_boundary_emission fuel db label b e target :
  ∀ intervalObj oneBeyondRight,
    filter (λ c, is_right_boundary c = true)
      (traceLoop leb ltb fuel db label b e target intervalObj oneBeyondRight).1
    = match oneBeyondRight with
      | Some lastVisited =>
          rightBoundaryEmission leb e target lastVisited
            (visited ltb fuel db label b intervalObj)
      | None => []
      end.
Proof.
  induction fuel as [|fuel IH]; intros cur obr; [by destruct obr |].
  cbn [traceLoop visited rightBoundaryEmission].
  set (current := if decide (cur = target) then []
                  else [CommaId (intervalId cur)] : list (@Chunk Time)).
  assert (Hcur : filter (λ c, is_right_boundary c = true) current = []).
  { unfold current. by destruct (decide (cur = target)). }
  assert (Hmark : ∀ lastVisited,
    filter (λ c, is_right_boundary c = true)
      [if decide (lastVisited = target)
       then TargetId (intervalId target)
       else BeyondRight (intervalId lastVisited) (Location lastVisited)
                        (Timestamp (enter lastVisited))]
    = [if decide (lastVisited = target)
       then TargetId (intervalId target)
       else BeyondRight (intervalId lastVisited) (Location lastVisited)
                        (Timestamp (enter lastVisited))]).
  { intros o. by destruct (decide (o = target)). }
  unfold rightBoundary.
  destruct obr as [lastVisited|];
    [destruct (leb (Timestamp (enter cur)) e) eqn:Hle |].
  - (* the first interval that starts at or before [end] *)
    assert (Hrest : ∀ rest : list (@Chunk Time),
      filter (λ c, is_right_boundary c = true) rest = [] →
      filter (λ c, is_right_boundary c = true)
        ((if decide (lastVisited = target)
          then [TargetId (intervalId target)]
          else [BeyondRight (intervalId lastVisited) (Location lastVisited)
                            (Timestamp (enter lastVisited))])
           ++ current ++ rest)
      = [if decide (lastVisited = target)
         then TargetId (intervalId target)
         else BeyondRight (intervalId lastVisited) (Location lastVisited)
                          (Timestamp (enter lastVisited))]).
    { intros rest Hnone. rewrite !filter_app, Hcur, Hnone.
      by destruct (decide (lastVisited = target)). }
    destruct (lastParentInterval cur) as [link|]; cbn [fst];
      [| by rewrite <- (Hrest []), app_nil_r].
    destruct (getInterval db label "intervals" (parent_id link))
      as [parent|err]; cbn [fst]; [| by rewrite <- (Hrest []), app_nil_r].
    destruct (ltb (Timestamp (leave parent)) b); cbn [fst];
      [by rewrite <- (Hrest []), app_nil_r |].
    pose proof (IH parent None) as IHnone.
    destruct (traceLoop leb ltb fuel db label b e target parent None)
      as [rest ex]. cbn [fst] in *. by apply Hrest.
  - (* still beyond the window *)
    destruct (lastParentInterval cur) as [link|]; cbn [fst];
      [| by rewrite filter_app, Hcur].
    destruct (getInterval db label "intervals" (parent_id link))
      as [parent|err]; cbn [fst]; [| by rewrite filter_app, Hcur].
    destruct (ltb (Timestamp (leave parent)) b); cbn [fst];
      [by rewrite filter_app, Hcur |].
    pose proof (IH parent (Some cur)) as IHsome.
    destruct (traceLoop leb ltb fuel db label b e target parent (Some cur))
      as [rest ex]. cbn [fst app] in *. by rewrite filter_app, Hcur.
  - (* the right boundary is settled *)
    destruct (lastParentInterval cur) as [link|]; cbn [fst];
      [| by rewrite filter_app, Hcur].
    destruct (getInterval db label "intervals" (parent_id link))
      as [parent|err]; cbn [fst]; [| by rewrite filter_app, Hcur].
    destruct (ltb (Timestamp (leave parent)) b); cbn [fst];
      [by rewrite filter_app, Hcur |].
    pose proof (IH parent None) as IHnone.
    destruct (traceLoop leb ltb fuel db label b e target parent None)
      as [rest ex]. cbn [fst app] in *. by rewrite filter_app, Hcur.
Qed.

(** C5: in every trace walk the right-boundary check emits at most once.
    The stream holds at most one chunk that is the target's id sent
    directly or a beyondRight marker -- never both, never a second one.
    Which one, and when, is as the spec words it: along the intervals the
    loop visits nothing is emitted while they start after [end]; at the
    first visited interval that starts at or before [end] the emission is
    the target's id if the interval visited last is still the target, and
    otherwise the marker with the id, location and start timestamp of the
    interval visited last -- one that is not the target, starts after the
    end of the window, and whose parent is that first interval; nothing is
    emitted for the right boundary afterwards, and nothing at all when no
    visited interval starts at or before [end]. *)
Theorem right_boundary_emitted_at_most_once fuel db label b e target :
  let out := (traceWalk leb ltb fuel db label b e target).1 in
  length (filter (λ c, is_right_boundary c = true) out) ≤ 1 ∧
  Forall (λ c, is_right_boundary c = true →
               rightBoundaryOf leb db label e target c) out ∧
  filter (λ c, is_right_boundary c = true) out
    = rightBoundaryEmission leb e target target
        (visited ltb fuel db label b target).
Proof.
  unfold traceWalk.
  destruct (traceLoop_right_boundary fuel db label b e target target
              (Some target)) as [Hlen HF]; [intros o [= <-]; by left |].
  pose proof (traceLoop_right_boundary_emission fuel db label b e target
                target (Some target)) as Hwhich.
  destruct (traceLoop leb ltb fuel db label b e target target (Some target))
    as [out ex]; cbn [fst] in *.
  assert (Htail : filter (λ c, is_right_boundary c = true) (traceTail ex).1 = []
                  ∧ Forall (λ c, is_right_boundary c = true →
                                 rightBoundaryOf leb db label e target c)
                           (traceTail ex).1).
  { destruct ex as [|s| |]; cbn [traceTail]; [| destruct (lastParentInterval s) |..];
      split; try done; by repeat constructor. }
  destruct Htail as [Htail0 HtailF].
  destruct (traceTail ex) as [tail how]; cbn [fst] in *.
  rewrite filter_app, length_app, Htail0, Forall_app, app_nil_r. cbn [length].
  split; [lia | done].
Qed.

(** ** Trace walk: the left boundary *)

(** How the loop can be left.  It never yields a beyondLeft marker itself;
    a [break] happens at an interval reached through a parent link and
    ending before [begin]; the loop condition fails only after an interval
    without parent link. *)
Lemma traceLoop_exit fuel db label b e target :
  ∀ intervalObj oneBeyondRight out exit,
    traceLoop leb ltb fuel db label b e target intervalObj oneBeyondRight
      = (out, exit) →
    Forall (λ c, is_beyondLeft c = false) out ∧
    (∀ s, exit = Broke s →
       ltb (Timestamp (leave s)) b = true ∧
       ∃ (child : @Interval Time) link,
         lastParentInterval child = Some link ∧
         getInterval db label "intervals" (parent_id link) = Ok s) ∧
    (exit = AtRoot → ∃ root : @Interval Time, lastParentInterval root = None).
Proof.
  induction fuel as [|fuel IH]; intros cur obr out exit Hrun.
  { cbn in Hrun. simplify_eq. split; [done | by split]. }
  cbn [traceLoop] in Hrun.
  destruct (rightBoundary leb e target cur obr) as [first obr1] eqn:Hrb.
  assert (Hfirst : Forall (λ c, is_beyondLeft c = false) first).
  { unfold rightBoundary in Hrb. destruct obr as [o|]; [| by simplify_eq].
    destruct (leb (Timestamp (enter cur)) e); [| by simplify_eq].
    destruct (decide (o = target)); simplify_eq; by apply Forall_singleton. }
  assert (Hcur : Forall (λ c, is_beyondLeft c = false)
                   (if decide (cur = target) then []
                    else [CommaId (intervalId cur)] : list (@Chunk Time))).
  { destruct (decide (cur = target)); [done | by apply Forall_singleton]. }
  destruct (lastParentInterval cur) as [link|] eqn:Hlink.
  - destruct (getInterval db label "intervals" (parent_id link))
      as [parent|err] eqn:Hget.
    + destruct (ltb (Timestamp (leave parent)) b) eqn:Hlt.
      * simplify_eq. split; [by rewrite Forall_app | split; [| done]].
        intros s [= <-]. split; [done |]. by exists cur, link.
      * destruct (traceLoop leb ltb fuel db label b e target parent _)
          as [rest ex] eqn:Hrec.
        simplify_eq. destruct (IH _ _ _ _ Hrec) as (HF & HB & HR).
        split; [by rewrite !Forall_app | by split].
    + simplify_eq. split; [by rewrite Forall_app | by split].
  - simplify_eq. split; [by rewrite Forall_app | split; [done |]].
    intros _. by exists cur.
Qed.

(** C6, as the code has it: when the walk stops at an ancestor that ends
    before [begin] and that ancestor has a parent link of its own, the
    stream ends with the beyondLeft marker built from that link (id,
    location, end timestamp), then the id of the ancestor, then the closing
    bracket; when the walk ends at a call-stack root, the closing bracket
    follows what the loop emitted, with no beyondLeft marker anywhere and no
    further id. *)
Theorem left_boundary_marker_after_walk fuel db label b e target out :
  (∀ s link,
     traceLoop leb ltb fuel db label b e target target (Some target)
       = (out, Broke s) →
     lastParentInterval s = Some link →
     ltb (Timestamp (leave s)) b = true ∧
     (∃ (child : @Interval Time) childLink,
        lastParentInterval child = Some childLink ∧
        getInterval db label "intervals" (parent_id childLink) = Ok s) ∧
     Forall (λ c, is_beyondLeft c = false) out ∧
     traceWalk leb ltb fuel db label b e target =
       (out ++ [BeyondLeft (parent_id link) (parent_location link)
                           (parent_endTimestamp link);
                CommaId (intervalId s);
                Text "]"], Finished)) ∧
  (traceLoop leb ltb fuel db label b e target target (Some target)
     = (out, AtRoot) →
   Forall (λ c, is_beyondLeft c = false) out ∧
   traceWalk leb ltb fuel db label b e target = (out ++ [Text "]"], Finished)).
Proof.
  split.
  - intros s link Hrun Hlink.
    destruct (traceLoop_exit _ _ _ _ _ _ _ _ _ _ Hrun) as (HF & HB & _).
    destruct (HB s eq_refl) as [Hlt Hreach].
    split; [done | split; [done | split; [done |]]].
    unfold traceWalk. rewrite Hrun. cbn [traceTail]. by rewrite Hlink.
  - intros Hrun.
    destruct (traceLoop_exit _ _ _ _ _ _ _ _ _ _ Hrun) as (HF & _ & _).
    split; [done |]. unfold traceWalk. by rewrite Hrun.
Qed.

(** ** Unknown target of a trace *)

(** C4, as the code has it: a trace request for an id that is not in the
    store the generator reads its target from is not rejected.  On an
    existing, indexed dataset the handler returns a started stream that
    yields the opening bracket and is then ended by the exception of the
    failed lookup -- a KeyError or a TypeError, never an HTTP error -- so no
    closing bracket follows and the truncated stream is not a closed array. *)
Theorem trace_of_unknown_interval_aborts_after_opening
    fuel db label ds fi fx intervalId begin end_ b e :
  db !! label = Some ds →
  ds !! "intervals" = Some fi → ds !! "intervalIndexes" = Some fx →
  orDomain db label 0 begin = Ok b → orDomain db label 1 end_ = Ok e →
  (∀ store, ds !! "itervals" = Some (FIntervals store) →
            store !! intervalId = None) →
  ∃ err,
    intervalTrace leb ltb fuel db label intervalId begin end_
      = Ok ([Text "["], Raised err) ∧
    (err = KeyError "itervals" ∨ err = KeyError intervalId ∨ err = TypeError) ∧
    Text "]" ∉ [@Text Time "["].
Proof.
  intros H Hi Hx Hb He Habsent.
  rewrite (intervalTrace_resolved _ _ _ _ _ _ _ _ _ _ _ H Hi Hx Hb He).
  unfold intervalIdGenerator, getInterval.
  rewrite (getDataset_Some _ _ _ H). run.
  assert (Hclosed : Text "]" ∉ [@Text Time "["]).
  { by intros [= ]%list_elem_of_singleton. }
  destruct (ds !! "itervals") as [[m|store|ixs|]|] eqn:Hk.
  - exists TypeError. split; [done | split; [by right; right | done]].
  - rewrite (Habsent store eq_refl).
    exists (KeyError intervalId). split; [done | split; [by right; left | done]].
  - exists TypeError. split; [done | split; [by right; right | done]].
  - exists TypeError. split; [done | split; [by right; right | done]].
  - exists (KeyError "itervals"). split; [done | split; [by left | done]].
Qed.

(** ** Repeated queries *)

Ltac reads :=
  unfold readDb, called, hraise, mbind, mret, handler_bind, handler_ret,
    result_bind, result_ret;
  cbn beta iota.

(** Each part of a handler body leaves [db] as it found it, and computes
    what the function of [db] computes. *)
Lemma orDomainS_reads db label i (bound : option Time) :
  orDomainS label i bound db = (orDomain db label i bound, db).
Proof. by destruct bound. Qed.

Lemma histogramS_reads db label mode bins (begin end_ : option Time)
    (location primitive : option string) :
  histogramS (Hist:=Hist) label mode bins begin end_ location primitive db
    = (histogram db label mode bins begin end_ location primitive, db).
Proof.
  unfold histogramS, histogram, checkDatasetExistenceS,
    checkDatasetHasIntervalsS. reads.
  destruct (checkDatasetExistence db label) as [[]|]; reads; [| done].
  destruct (checkDatasetHasIntervals db label) as [[]|]; reads; [| done].
  rewrite orDomainS_reads.
  destruct (orDomain db label 0 begin) as [b|]; reads; [| done].
  rewrite orDomainS_reads.
  destruct (orDomain db label 1 end_) as [e|]; reads; [| done].
  destruct location as [l|], primitive as [p|]; reads;
    repeat (case_match; simplify_eq; reads; try done).
Qed.

Lemma intervalItemsS_reads db label :
  ∀ ids firstItem,
    intervalItemsS label firstItem ids db
      = (intervalItems db label firstItem ids, db).
Proof.
  induction ids as [|i rest IH]; intros firstItem; [done |].
  cbn [intervalItemsS intervalItems readDb].
  destruct (getInterval db label "intervals" i) as [record|err]; [| done].
  rewrite IH. by destruct (intervalItems db label false rest).
Qed.

Lemma intervalGeneratorS_reads db label (b e : Time) :
  intervalGeneratorS label b e db = (intervalGenerator db label b e, db).
Proof.
  unfold intervalGeneratorS, intervalGenerator. cbn [readDb].
  destruct (getIndexes db label) as [ixs|err]; [| done].
  rewrite intervalItemsS_reads.
  by destruct (intervalItems db label true (iterOverlap (main ixs) b e)).
Qed.

Lemma intervalsS_reads db label (begin end_ : option Time) :
  intervalsS label begin end_ db = (intervals db label begin end_, db).
Proof.
  unfold intervalsS, intervals, checkDatasetExistenceS,
    checkDatasetHasIntervalsS. reads.
  destruct (checkDatasetExistence db label) as [[]|]; reads; [| done].
  destruct (checkDatasetHasIntervals db label) as [[]|]; reads; [| done].
  rewrite orDomainS_reads.
  destruct (orDomain db label 0 begin) as [b|]; reads; [| done].
  rewrite orDomainS_reads.
  destruct (orDomain db label 1 end_) as [e|]; reads; [| done].
  unfold streamed. by rewrite intervalGeneratorS_reads.
Qed.

Lemma traceLoopS_reads db label b e target :
  ∀ fuel intervalObj oneBeyondRight,
    traceLoopS leb ltb fuel label b e target intervalObj oneBeyondRight db
      = (traceLoop leb ltb fuel db label b e target intervalObj oneBeyondRight,
         db).
Proof.
  induction fuel as [|fuel IH]; intros cur obr; [done |].
  cbn [traceLoopS traceLoop readDb].
  destruct (rightBoundary leb e target cur obr) as [first obr1].
  destruct (lastParentInterval cur) as [link|]; [| done].
  destruct (getInterval db label "intervals" (parent_id link))
    as [parent|err]; [| done].
  destruct (ltb (Timestamp (leave parent)) b); [done |].
  rewrite IH. by destruct (traceLoop leb ltb fuel db label b e target parent _).
Qed.

Lemma intervalIdGeneratorS_reads fuel db label targetId (b e : Time) :
  intervalIdGeneratorS leb ltb fuel label targetId b e db
    = (intervalIdGenerator leb ltb fuel db label targetId b e, db).
Proof.
  unfold intervalIdGeneratorS, intervalIdGenerator, traceWalk. cbn [readDb].
  destruct (getInterval db label "itervals" targetId) as [target|err];
    [| done].
  rewrite traceLoopS_reads.
  destruct (traceLoop leb ltb fuel db label b e target target (Some target))
    as [out ex].
  by destruct (traceTail ex).
Qed.

Lemma intervalTraceS_reads fuel db label targetId (begin end_ : option Time) :
  intervalTraceS leb ltb fuel label targetId begin end_ db
    = (intervalTrace leb ltb fuel db label targetId begin end_, db).
Proof.
  unfold intervalTraceS, intervalTrace, checkDatasetExistenceS,
    checkDatasetHasIntervalsS. reads.
  destruct (checkDatasetExistence db label) as [[]|]; reads; [| done].
  destruct (checkDatasetHasIntervals db label) as [[]|]; reads; [| done].
  rewrite orDomainS_reads.
  destruct (orDomain db label 0 begin) as [b|]; reads; [| done].
  rewrite orDomainS_reads.
  destruct (orDomain db label 1 end_) as [e|]; reads; [| done].
  unfold streamed. by rewrite intervalIdGeneratorS_reads.
Qed.


End Properties.

(** * The scenarios, evaluated *)

(** ** Scenario B *)

(** C1, on the code as it is: for scenario B -- [T = [15,25)] with the
    root parent [P = [0,40)], traced over [[20,30)] -- the dataset passes
    both checks and a stream is returned, but the generator yields only the
    opening bracket and then raises [KeyError('itervals')], for every amount
    of fuel: the target is looked up under a key no dataset has.  The
    stream [[T.id, P.id]] is never produced. *)
Theorem scenarioB_trace_stops_at_target_lookup :
  ∀ fuel,
    intervalTrace Z.leb Z.ltb fuel dbB "run" "T" (Some 20%Z) (Some 30%Z)
      = Ok ([Text "["], Raised (KeyError "itervals")).
Proof. intros fuel. reflexivity. Qed.

(** The walk itself, started from [T], does emit [T]'s id directly, then
    [P]'s id, with no boundary marker; so does the whole handler once the
    key of the target lookup exists, and the body then reads as the array
    of the two quoted ids. *)
Lemma scenarioB_walk_from_target :
  ∀ fuel,
    traceWalk Z.leb Z.ltb (S (S fuel)) dbB "run" 20%Z 30%Z intervalT
      = ([TargetId "T"; CommaId "P"; Text "]"], Finished) ∧
    intervalTrace Z.leb Z.ltb (S (S fuel)) dbB_both_keys "run" "T"
                  (Some 20%Z) (Some 30%Z)
      = Ok ([Text "["; TargetId "T"; CommaId "P"; Text "]"], Finished) ∧
    ∀ json_dumps json_dumps_interval,
      body (Time:=Z) json_dumps json_dumps_interval
           [Text "["; TargetId "T"; CommaId "P"; Text "]"]
        = "[" +:+ quoted "T" +:+ "," +:+ quoted "P" +:+ "]".
Proof. intros fuel. repeat split. Qed.

(** ** Dataset checks, default window, dispatch *)

Lemma dataset_checks_guard_every_query_witness :
  histogram dbB "nope" count 100 None None None None
    = Raise (HTTPException 404 "Dataset not found") ∧
  intervals dbBare "bare" None None
    = Raise (HTTPException 404 "Dataset does not contain indexed interval data").
Proof.
  split.
  - apply (proj1 (dataset_checks_guard_every_query Z.leb Z.ltb 0 dbB "nope")
             eq_refl count 100%Z None None None None "T").
  - apply (proj2 (dataset_checks_guard_every_query Z.leb Z.ltb 0 dbBare "bare")
             {[ "meta" := FMeta {| intervalDomain := None |} ]} eq_refl
             (or_introl eq_refl) count 100%Z None None None None "T").
Defined.

Lemma omitted_bounds_default_to_domain_witness :
  intervals dbB "run" None (Some 30%Z)
    = Ok (intervalGenerator dbB "run" 0%Z 30%Z) ∧
  histogram dbB "run" count 100 None None None None
    = methodOf count (main (stubIndexSet ["P"; "T"])) 100 0%Z 40%Z.
Proof.
  pose proof (omitted_bounds_default_to_domain Z.leb Z.ltb 0 dbB "run"
    (datasetOf storeB ["P"; "T"]) (FIntervals storeB)
    (stubIndexSet ["P"; "T"]) {| intervalDomain := Some [0%Z; 40%Z] |}
    [0%Z; 40%Z] 0%Z 40%Z) as Hthm.
  split.
  - apply (Hthm None (Some 30%Z) eq_refl eq_refl eq_refl eq_refl eq_refl
             eq_refl eq_refl).
  - apply (Hthm None None eq_refl eq_refl eq_refl eq_refl eq_refl
             eq_refl eq_refl).
Defined.

Lemma stubIndexSet_both_covers_locations ids l :
  is_Some (locations (stubIndexSet ids) !! l) →
  is_Some (both (stubIndexSet ids) !! l).
Proof.
  cbn [locations both stubIndexSet]. intros [x Hx].
  apply lookup_singleton_Some in Hx as [<- _]. by rewrite lookup_singleton_eq.
Qed.

Lemma histogram_selector_dispatch_witness :
  histogram dbB "run" count 100 None None (Some "L0") (Some "add") = Ok [3%Z] ∧
  histogram dbB "run" count 100 None None (Some "L9") (Some "add")
    = Raise (noLocation "L9") ∧
  histogram dbB "run" count 100 None None (Some "L0") (Some "mul")
    = Raise (noCombination "L0" "mul") ∧
  histogram dbB "run" count 100 None None None (Some "mul")
    = Raise (noPrimitive "mul").
Proof.
  pose proof (histogram_selector_dispatch dbB "run"
    (datasetOf storeB ["P"; "T"]) (FIntervals storeB)
    (stubIndexSet ["P"; "T"]) count 100%Z None None 0%Z 40%Z
    eq_refl eq_refl eq_refl eq_refl eq_refl
    (stubIndexSet_both_covers_locations ["P"; "T"]))
    as (_ & _ & _ & Hboth & Hloc & Hcomb & Hprim & _).
  split; [| split; [| split]].
  - apply (Hboth "L0" "add" {[ "add" := stubIndex (Ok [3%Z]) [] ]}
             (stubIndex (Ok [3%Z]) [])); [by eexists | done | done].
  - by apply Hloc.
  - apply Hcomb; [by eexists |].
    intros byPrimitive Hb. cbn [both stubIndexSet] in Hb.
    rewrite lookup_singleton_eq in Hb. by injection Hb as <-.
  - by apply Hprim.
Defined.

(** ** Window validation *)

(** C3 fails on the code: with [bins = 0], and with [begin > end], the
    handler answers with the result of the index's method; it is not the
    case that every such request fails. *)
Lemma histogram_does_not_reject_invalid_window :
  histogram dbB "run" count 0 (Some 20%Z) (Some 30%Z) None None = Ok [] ∧
  histogram dbB "run" utilization 100 (Some 30%Z) (Some 20%Z) None None = Ok [] ∧
  ¬ (∀ bins b e, (bins < 1 ∨ e ≤ b)%Z →
       ∃ err, histogram dbB "run" count bins (Some b) (Some e) None None
                = Raise err).
Proof.
  split; [done | split; [done |]].
  intros Hclaim. destruct (Hclaim 0%Z 20%Z 30%Z) as [err Herr]; [lia |].
  discriminate Herr.
Qed.

Lemma histogram_forwards_bins_and_window_witness :
  histogram dbB "run" count 0 (Some 30%Z) (Some 20%Z) None None
    = methodOf count (stubIndex (Ok []) ["P"; "T"]) 0 30%Z 20%Z.
Proof.
  apply (histogram_forwards_bins_and_window dbB "run"
           (datasetOf storeB ["P"; "T"]) (FIntervals storeB)
           (stubIndexSet ["P"; "T"]) count 0%Z (Some 30%Z) (Some 20%Z)
           30%Z 20%Z None None (stubIndex (Ok []) ["P"; "T"]));
    reflexivity.
Defined.

(** ** Unknown target of a trace *)

(** C4 fails on the code: a trace of an id that no store holds is answered
    with a started stream, not with an error; the lookup fails only after
    the opening bracket was sent.  This is so with the key of the target
    lookup missing and with it present. *)
Lemma trace_of_unknown_interval_is_not_rejected :
  intervalTrace Z.leb Z.ltb 5 dbB "run" "nope" None None
    = Ok ([Text "["], Raised (KeyError "itervals")) ∧
  intervalTrace Z.leb Z.ltb 5 dbB_both_keys "run" "nope" None None
    = Ok ([Text "["], Raised (KeyError "nope")) ∧
  ¬ (∃ err, intervalTrace Z.leb Z.ltb 5 dbB_both_keys "run" "nope" None None
              = Raise err).
Proof. split; [done | split; [done |]]. by intros [err Herr]. Qed.

Lemma trace_of_unknown_interval_aborts_after_opening_witness :
  ∃ err,
    intervalTrace Z.leb Z.ltb 5 dbB_both_keys "run" "nope" None (Some 30%Z)
      = Ok ([Text "["], Raised err) ∧
    (err = KeyError "itervals" ∨ err = KeyError "nope" ∨ err = TypeError) ∧
    Text "]" ∉ [@Text Z "["].
Proof.
  apply (trace_of_unknown_interval_aborts_after_opening Z.leb Z.ltb 5
           dbB_both_keys "run"
           (<["itervals" := FIntervals storeB]> (datasetOf storeB ["P"; "T"]))
           (FIntervals storeB) (FIndexes (stubIndexSet ["P"; "T"]))
           "nope" None (Some 30%Z) 0%Z 30%Z);
    [reflexivity.. |].
  intros store Hstore. injection Hstore as <-. reflexivity.
Defined.

(** ** Trace walk *)

Lemma right_boundary_emitted_at_most_once_witness :
  filter (λ c, is_right_boundary c = true)
    (traceWalk Z.leb Z.ltb 5 dbB "run" 20%Z 30%Z intervalT).1
    = [TargetId "T"] ∧
  filter (λ c, is_right_boundary c = true)
    (traceWalk Z.leb Z.ltb 5 dbRight "run" 20%Z 45%Z intervalT_right).1
    = [TargetId "T"] ∧
  filter (λ c, is_right_boundary c = true)
    (traceWalk Z.leb Z.ltb 5 dbRight "run" 20%Z 30%Z intervalT_right).1
    = [BeyondRight "A" "L0" 40%Z] ∧
  filter (λ c, is_right_boundary c = true)
    (traceWalk Z.leb Z.ltb 5 dbRight "run" (-10)%Z (-5)%Z intervalT_right).1
    = [].
Proof.
  split; [| split; [| split]].
  - exact (proj2 (proj2 (right_boundary_emitted_at_most_once Z.leb Z.ltb 5 dbB
                           "run" 20%Z 30%Z intervalT))).
  - exact (proj2 (proj2 (right_boundary_emitted_at_most_once Z.leb Z.ltb 5
                           dbRight "run" 20%Z 45%Z intervalT_right))).
  - exact (proj2 (proj2 (right_boundary_emitted_at_most_once Z.leb Z.ltb 5
                           dbRight "run" 20%Z 30%Z intervalT_right))).
  - exact (proj2 (proj2 (right_boundary_emitted_at_most_once Z.leb Z.ltb 5
                           dbRight "run" (-10)%Z (-5)%Z intervalT_right))).
Defined.

(** C6 fails on the code: the walk from [T = [15,25)] over [[20,30)] stops
    at its parent [P = [0,10)], which ends before [begin]; [P] is a root, it
    has no parent link, and the stream ends without beyondLeft marker and
    without [P]'s id. *)
Lemma left_stop_at_root_emits_no_marker :
  traceLoop Z.leb Z.ltb 5 dbLeftRoot "run" 20%Z 30%Z intervalT_late
            intervalT_late (Some intervalT_late)
    = ([TargetId "T"], Broke intervalP_left) ∧
  Z.ltb (Timestamp (leave intervalP_left)) 20 = true ∧
  lastParentInterval intervalP_left = None ∧
  traceWalk Z.leb Z.ltb 5 dbLeftRoot "run" 20%Z 30%Z intervalT_late
    = ([TargetId "T"; Text "]"], Finished).
Proof. by repeat split. Qed.

Lemma left_boundary_marker_after_walk_witness :
  traceWalk Z.leb Z.ltb 5 dbLeftChain "run" 20%Z 30%Z intervalT_late
    = ([TargetId "T"]
         ++ [BeyondLeft "G" "L1" 12%Z; CommaId "P"; Text "]"], Finished) ∧
  traceWalk Z.leb Z.ltb 5 dbB "run" 20%Z 30%Z intervalT
    = ([TargetId "T"; CommaId "P"] ++ [Text "]"], Finished).
Proof.
  split.
  - apply (proj1 (left_boundary_marker_after_walk Z.leb Z.ltb 5 dbLeftChain
                    "run" 20%Z 30%Z intervalT_late [TargetId "T"])
             intervalP_mid
             {| parent_id := "G"; parent_location := "L1";
                parent_endTimestamp := 12%Z |});
      reflexivity.
  - apply (proj2 (left_boundary_marker_after_walk Z.leb Z.ltb 5 dbB
                    "run" 20%Z 30%Z intervalT [TargetId "T"; CommaId "P"]));
      reflexivity.
Defined.

(** ** Repeated queries, interval listing *)


(** A purge between two identical queries changes the answer: the served
    [db] is the one the request before left. *)
Lemma purge_between_queries_changes_the_answer :
  serveAll Z.leb Z.ltb 5 dbB
    [GetHistogram "run" count 100 None None (Some "L0") None;
     DeleteDataset "run";
     GetHistogram "run" count 100 None None (Some "L0") None]
  = (∅,
     [HistogramResponse (Ok [1%Z]);
      NoContent;
      HistogramResponse (Raise (HTTPException 404 "Dataset not found"))]).
Proof. reflexivity. Qed.

Lemma interval_listing_is_well_formed_array_witness :
  intervals dbB "run" None None
    = Ok ([Text "["; IntervalJson intervalP; Text ","; IntervalJson intervalT;
           Text "]"], Finished) ∧
  intervals dbLeftRoot "run" (Some 50%Z) None
    = Ok ([Text "["; Text "]"], Finished).
Proof.
  split.
  - apply (interval_listing_is_well_formed_array dbB "run"
             (datasetOf storeB ["P"; "T"]) storeB (stubIndexSet ["P"; "T"])
             None None 0%Z 40%Z eq_refl eq_refl eq_refl eq_refl eq_refl).
    repeat constructor; by eexists.
  - apply (interval_listing_is_well_formed_array dbLeftRoot "run"
             (datasetOf {[ "T" := intervalT_late; "P" := intervalP_left ]} [])
             {[ "T" := intervalT_late; "P" := intervalP_left ]}
             (stubIndexSet []) (Some 50%Z) None 50%Z 40%Z
             eq_refl eq_refl eq_refl eq_refl eq_refl); [constructor | done].
Defined.

(** * The walk along the parent links *)

Section WalkProperties.

Context {Time : Type} `{!EqDecision Time}.
Context {Hist : Type}.
Variable leb : Time → Time → bool.
Variable ltb : Time → Time → bool.

Implicit Types (db : gmap string (gmap string (@Field Time Hist))).
Implicit Types (ds : gmap string (@Field Time Hist)).
Implicit Types (label : string).
Implicit Types (target cur top : @Interval Time).
Implicit Types (chain : list (@Interval Time)).

(** ** Chains of ancestors *)

Lemma topOf_cons cur (p : @Interval Time) rest :
  topOf cur (p :: rest) = topOf p rest.
Proof. unfold topOf. rewrite last_cons. by destruct (last rest). Qed.

Lemma topOf_snoc cur chain top : topOf cur (chain ++ [top]) = top.
Proof. unfold topOf. by rewrite last_snoc. Qed.

Lemma topOf_app cur l1 l2 : topOf cur (l1 ++ l2) = topOf (topOf cur l1) l2.
Proof. unfold topOf. rewrite last_app. by destruct (last l2). Qed.

Lemma ancestry_app db label cur l1 l2 :
  ancestry db label cur (l1 ++ l2) ↔
  ancestry db label cur l1 ∧ ancestry db label (topOf cur l1) l2.
Proof.
  revert cur. induction l1 as [|p l1 IH]; intros cur.
  - cbn [app ancestry]. unfold topOf. cbn. tauto.
  - cbn [app ancestry]. rewrite IH, topOf_cons. tauto.
Qed.

(** ** One iteration of the loop *)

(** An iteration that moves on to the parent. *)
Lemma traceLoop_step fuel db label b e target cur obr link parent :
  lastParentInterval cur = Some link →
  getInterval db label "intervals" (parent_id link) = Ok parent →
  ltb (Timestamp (leave parent)) b = false →
  traceLoop leb ltb (S fuel) db label b e target cur obr =
    let r := rightBoundary leb e target cur obr in
    let next :=
      traceLoop leb ltb fuel db label b e target parent
                (if r.2 is Some _ then Some cur else None) in
    (r.1 ++ (if decide (cur = target) then []
             else [CommaId (intervalId cur)]) ++ next.1,
     next.2).
Proof.
  intros Hl Hg Hlt. cbn [traceLoop].
  destruct (rightBoundary leb e target cur obr) as [first obr1].
  rewrite Hl, Hg, Hlt. cbn [fst snd].
  by destruct (traceLoop leb ltb fuel db label b e target parent _).
Qed.

(** The iteration at the interval where the walk ends. *)
Lemma traceLoop_stop fuel db label b e target top obr :
  walkEnds ltb db label b top →
  traceLoop leb ltb (S fuel) db label b e target top obr =
    ((rightBoundary leb e target top obr).1
       ++ (if decide (top = target) then [] else [CommaId (intervalId top)]),
     exitAt db label top).
Proof.
  intros Hend. cbn [traceLoop]. unfold exitAt.
  destruct (rightBoundary leb e target top obr) as [first obr1]. cbn [fst].
  destruct (lastParentInterval top) as [link|] eqn:Hl; [| done].
  destruct (getInterval db label "intervals" (parent_id link))
    as [s|err] eqn:Hg; [| done].
  by rewrite (Hend link s Hl Hg).
Qed.

(** ** The loop along a chain *)

(** Once the right boundary is settled, the loop yields the id of every
    ancestor it passes and leaves at the top of the chain. *)
Lemma traceLoop_climb db label b e target chain :
  ∀ cur obr fuel,
    (rightBoundary leb e target cur obr).2 = None →
    ancestry db label cur chain →
    Forall (passed ltb b target) chain →
    walkEnds ltb db label b (topOf cur chain) →
    length chain < fuel →
    traceLoop leb ltb fuel db label b e target cur obr =
      ((rightBoundary leb e target cur obr).1
         ++ (if decide (cur = target) then []
             else [CommaId (intervalId cur)])
         ++ plainIds chain,
       exitAt db label (topOf cur chain)).
Proof.
  induction chain as [|p rest IH]; intros cur obr fuel Hrb Hanc Hpass Hend Hfuel;
    (destruct fuel as [|n]; [cbn in Hfuel; lia |]).
  - change (topOf cur []) with cur in *.
    rewrite (traceLoop_stop _ _ _ _ _ _ _ _ Hend).
    change (plainIds []) with (@nil (@Chunk Time)). by rewrite app_nil_r.
  - cbn [ancestry] in Hanc. destruct Hanc as [Hlink Hanc].
    destruct (lastParentInterval cur) as [link|] eqn:Hl; [| done].
    apply Forall_cons in Hpass as [[Hne Hlt] Hpass].
    rewrite (traceLoop_step n db label b e target cur obr link p Hl Hlink Hlt).
    cbn zeta. rewrite Hrb. rewrite topOf_cons in *.
    rewrite (IH p None n Logic.eq_refl Hanc Hpass Hend); [| cbn in Hfuel; lia].
    cbn [rightBoundary fst snd]. by rewrite (decide_False (P:=p = target)).
Qed.

(** While no visited interval starts at or before [end], the loop yields
    plain ids only and hands the interval visited last to the next
    iteration. *)
Lemma traceLoop_beyond db label b e target mid :
  ∀ cur prev top fuel,
    leb (Timestamp (enter cur)) e = false →
    ancestry db label cur (mid ++ [top]) →
    Forall (passed ltb b target) mid →
    Forall (λ a, leb (Timestamp (enter a)) e = false) mid →
    ltb (Timestamp (leave top)) b = false →
    traceLoop leb ltb (S (length mid + fuel)) db label b e target cur (Some prev) =
      let next :=
        traceLoop leb ltb fuel db label b e target top (Some (topOf cur mid)) in
      ((if decide (cur = target) then [] else [CommaId (intervalId cur)])
         ++ plainIds mid ++ next.1,
       next.2).
Proof.
  induction mid as [|p rest IH]; intros cur prev top fuel Hcur Hanc Hpass Hout Htop;
    cbn [app ancestry] in Hanc; destruct Hanc as [Hlink Hanc];
    (destruct (lastParentInterval cur) as [link|] eqn:Hl; [| done]);
    (assert (Hrb : rightBoundary leb e target cur (Some prev) = ([], Some prev))
       by (unfold rightBoundary; by rewrite Hcur)).
  - cbn [length Nat.add].
    rewrite (traceLoop_step fuel db label b e target cur (Some prev) link top
               Hl Hlink Htop).
    cbn zeta. by rewrite Hrb.
  - apply Forall_cons in Hpass as [[Hne Hlt] Hpass].
    apply Forall_cons in Hout as [Hp Hout].
    cbn [length Nat.add].
    rewrite (traceLoop_step (S (length rest + fuel)) db label b e target cur
               (Some prev) link p Hl Hlink Hlt).
    cbn zeta. rewrite Hrb. cbn [fst snd app].
    rewrite (IH p cur top fuel Hp Hanc Hpass Hout Htop).
    cbn zeta. cbn [fst snd].
    by rewrite topOf_cons, (decide_False (P:=p = target)).
Qed.

(** The loop's result no longer depends on the fuel once there is more of
    it than ancestors to pass. *)
Lemma traceLoop_enough_fuel db label b e target chain :
  ∀ cur obr fuel,
    ancestry db label cur chain →
    Forall (λ a, ltb (Timestamp (leave a)) b = false) chain →
    walkEnds ltb db label b (topOf cur chain) →
    length chain < fuel →
    traceLoop leb ltb fuel db label b e target cur obr =
      traceLoop leb ltb (S (length chain)) db label b e target cur obr ∧
    (traceLoop leb ltb fuel db label b e target cur obr).2 =
      exitAt db label (topOf cur chain).
Proof.
  induction chain as [|p rest IH]; intros cur obr fuel Hanc Hpass Hend Hfuel;
    (destruct fuel as [|n]; [cbn in Hfuel; lia |]).
  - change (topOf cur []) with cur in *.
    by rewrite !(traceLoop_stop _ _ _ _ _ _ _ _ Hend).
  - cbn [ancestry] in Hanc. destruct Hanc as [Hlink Hanc].
    destruct (lastParentInterval cur) as [link|] eqn:Hl; [| done].
    apply Forall_cons in Hpass as [Hlt Hpass].
    cbn [length].
    rewrite !(traceLoop_step _ db label b e target cur obr link p Hl Hlink Hlt).
    cbn zeta. rewrite topOf_cons in *.
    destruct (IH p (if (rightBoundary leb e target cur obr).2 is Some _
                    then Some cur else None) n Hanc Hpass Hend) as [-> <-];
      [cbn in Hfuel; lia |].
    split; [done |]. cbn [snd].
    by destruct (IH p (if (rightBoundary leb e target cur obr).2 is Some _
                    then Some cur else None) (S (length rest)) Hanc Hpass Hend)
      as [_ ->]; [lia |].
Qed.

(** With no more fuel than ancestors to pass, the loop is still running. *)
Lemma traceLoop_needs_fuel db label b e target chain :
  ∀ cur obr fuel,
    ancestry db label cur chain →
    Forall (λ a, ltb (Timestamp (leave a)) b = false) chain →
    fuel ≤ length chain →
    (traceLoop leb ltb fuel db label b e target cur obr).2 = Unfinished.
Proof.
  induction chain as [|p rest IH]; intros cur obr fuel Hanc Hpass Hfuel;
    (destruct fuel as [|n]; [done |]); [cbn in Hfuel; lia |].
  cbn [ancestry] in Hanc. destruct Hanc as [Hlink Hanc].
  destruct (lastParentInterval cur) as [link|] eqn:Hl; [| done].
  apply Forall_cons in Hpass as [Hlt Hpass].
  rewrite (traceLoop_step _ db label b e target cur obr link p Hl Hlink Hlt).
  cbn zeta. cbn [snd]. apply IH; [done | done | cbn in Hfuel; lia].
Qed.

(** The loop yields ids and markers, never a piece of plain text. *)
Lemma traceLoop_no_text fuel db label b e target :
  ∀ cur obr s,
    Text s ∉ (traceLoop leb ltb fuel db label b e target cur obr).1.
Proof.
  induction fuel as [|n IH]; intros cur obr s; [by intros ?%elem_of_nil |].
  cbn [traceLoop].
  assert (Hrb : Text s ∉ (rightBoundary leb e target cur obr).1).
  { unfold rightBoundary. destruct obr as [o|]; [| by intros ?%elem_of_nil].
    destruct (leb (Timestamp (enter cur)) e); [| by intros ?%elem_of_nil].
    destruct (decide (o = target)); cbn [fst];
      by intros [= ]%list_elem_of_singleton. }
  assert (Hcur : Text s ∉ (if decide (cur = target) then []
                           else [CommaId (intervalId cur)] : list (@Chunk Time))).
  { destruct (decide (cur = target)); [by intros ?%elem_of_nil |].
    by intros [= ]%list_elem_of_singleton. }
  destruct (rightBoundary leb e target cur obr) as [first obr1]. cbn [fst] in Hrb.
  destruct (lastParentInterval cur) as [link|]; cbn [fst];
    [| by rewrite elem_of_app; intros [?|?]].
  destruct (getInterval db label "intervals" (parent_id link)) as [p|err];
    cbn [fst]; [| by rewrite elem_of_app; intros [?|?]].
  destruct (ltb (Timestamp (leave p)) b); cbn [fst];
    [by rewrite elem_of_app; intros [?|?] |].
  specialize (IH p (match obr1 with Some _ => Some cur | None => None end) s).
  destruct (traceLoop leb ltb n db label b e target p _) as [rest ex].
  cbn [fst] in *. rewrite !elem_of_app. by intros [?|[?|?]].
Qed.

Lemma traceWalk_outcome fuel db label b e target :
  (traceWalk leb ltb fuel db label b e target).2 =
  (traceTail
     (traceLoop leb ltb fuel db label b e target target (Some target)).2).2.
Proof.
  unfold traceWalk.
  destruct (traceLoop leb ltb fuel db label b e target target (Some target))
    as [out ex].
  cbn [snd]. by destruct (traceTail ex).
Qed.

Lemma traceWalk_stream fuel db label b e target out ex :
  traceLoop leb ltb fuel db label b e target target (Some target) = (out, ex) →
  traceWalk leb ltb fuel db label b e target =
    (out ++ (traceTail ex).1, (traceTail ex).2).
Proof. unfold traceWalk. intros ->. by destruct (traceTail ex). Qed.

Lemma exitAt_not_unfinished db label top :
  (traceTail (exitAt db label top)).2 ≠ @Running.
Proof.
  unfold exitAt. destruct (lastParentInterval top) as [link|]; [| done].
  destruct (getInterval db label "intervals" (parent_id link)) as [s|err];
    [| done].
  cbn [traceTail]. by destruct (lastParentInterval s).
Qed.

(** The text of a run of plain ids, after a first quoted id. *)
Lemma body_plainIds json_dumps json_dumps_interval chain :
  ∀ (x : string) (tl : list (@Chunk Time)),
    quoted x +:+ body json_dumps json_dumps_interval (plainIds chain ++ tl) =
    String.concat "," (quoted <$> x :: (intervalId <$> chain))
      +:+ body json_dumps json_dumps_interval tl.
Proof.
  induction chain as [|a rest IH]; intros x tl; [done |].
  change (plainIds (a :: rest) ++ tl)
    with (CommaId (intervalId a) :: (plainIds rest ++ tl)).
  change (String.concat "," (quoted <$> x :: (intervalId <$> a :: rest)))
    with (quoted x +:+ "," +:+
          String.concat "," (quoted <$> intervalId a :: (intervalId <$> rest))).
  rewrite body_cons. cbn [render].
  by rewrite !append_assoc, IH.
Qed.

(** ** Termination *)

(** X1: the loop of the trace makes one iteration per interval of the
    target's ancestor chain.  When the chain of parent links from the target
    is finite -- every link resolves to a stored interval that does not end
    before [begin], up to an interval with no parent link, a dangling link
    or a parent that ends before [begin] -- the walk comes to an end: it
    finishes or raises, and more iterations than the chain has intervals
    change nothing; with fewer it is still running. *)
Theorem walk_terminates_on_finite_ancestry fuel db label b e target chain :
  ancestry db label target chain →
  Forall (λ a, ltb (Timestamp (leave a)) b = false) chain →
  walkEnds ltb db label b (topOf target chain) →
  length chain < fuel →
  traceWalk leb ltb fuel db label b e target =
    traceWalk leb ltb (S (length chain)) db label b e target ∧
  (traceWalk leb ltb fuel db label b e target).2 ≠ Running ∧
  ∀ fewer, fewer ≤ length chain →
    (traceWalk leb ltb fewer db label b e target).2 = Running.
Proof.
  intros Hanc Hpass Hend Hfuel.
  destruct (traceLoop_enough_fuel db label b e target chain target
              (Some target) fuel Hanc Hpass Hend Hfuel) as [Heq Hex].
  split; [| split].
  - unfold traceWalk. by rewrite Heq.
  - rewrite traceWalk_outcome, Hex. apply exitAt_not_unfinished.
  - intros fewer Hfewer. rewrite traceWalk_outcome.
    by rewrite (traceLoop_needs_fuel db label b e target chain target
                  (Some target) fewer Hanc Hpass Hfewer).
Qed.

(** X2: the walk does not end on cyclic parent links.  When the chain of
    parent links from the target comes back to an interval it has already
    visited, and no interval on the way ends before [begin], the loop is
    still running after any number of iterations: the generator never
    yields the closing bracket. *)
Theorem walk_on_cyclic_links_never_finishes db label b e target pre x mid :
  ancestry db label target (pre ++ x :: mid ++ [x]) →
  Forall (λ a, ltb (Timestamp (leave a)) b = false) (pre ++ x :: mid ++ [x]) →
  ∀ fuel,
    (traceWalk leb ltb fuel db label b e target).2 = Running ∧
    Text "]" ∉ (traceWalk leb ltb fuel db label b e target).1.
Proof.
  intros Hanc Hpass fuel.
  change (pre ++ x :: mid ++ [x]) with (pre ++ [x] ++ (mid ++ [x])) in *.
  rewrite (assoc_L (++)) in Hanc, Hpass.
  apply ancestry_app in Hanc as [Hpre Hcyc]. rewrite topOf_snoc in Hcyc.
  apply Forall_app in Hpass as [Hprepass Hcycpass].
  assert (Hrounds : ∀ n,
    ancestry db label x (mjoin (replicate n (mid ++ [x]))) ∧
    topOf x (mjoin (replicate n (mid ++ [x]))) = x ∧
    Forall (λ a, ltb (Timestamp (leave a)) b = false)
           (mjoin (replicate n (mid ++ [x]))) ∧
    n ≤ length (mjoin (replicate n (mid ++ [x])))).
  { induction n as [|n (IHa & IHt & IHp & IHl)]; [by repeat split |].
    change (mjoin (replicate (S n) (mid ++ [x])))
      with ((mid ++ [x]) ++ mjoin (replicate n (mid ++ [x]))).
    split; [| split; [| split]].
    - apply ancestry_app. by rewrite topOf_snoc.
    - by rewrite (topOf_app x (mid ++ [x])), topOf_snoc.
    - by apply Forall_app.
    - rewrite !length_app. cbn [length]. lia. }
  destruct (Hrounds fuel) as (Ha & _ & Hp & Hl).
  assert (Hloop :
    (traceLoop leb ltb fuel db label b e target target (Some target)).2
      = Unfinished).
  { apply (traceLoop_needs_fuel db label b e target
             ((pre ++ [x]) ++ mjoin (replicate fuel (mid ++ [x])))).
    - apply ancestry_app. by rewrite topOf_snoc.
    - by apply Forall_app.
    - rewrite length_app. lia. }
  split; [by rewrite traceWalk_outcome, Hloop |].
  destruct (traceLoop leb ltb fuel db label b e target target (Some target))
    as [out ex] eqn:Hrun.
  cbn [snd] in Hloop. subst ex.
  rewrite (traceWalk_stream _ _ _ _ _ _ _ _ Hrun). cbn [traceTail fst].
  rewrite app_nil_r. intros Hin.
  apply (traceLoop_no_text fuel db label b e target target (Some target) "]").
  by rewrite Hrun.
Qed.

(** ** The stream of a trace, case by case *)

(** The walk from a target that starts at or before [end], up a chain of
    passed ancestors. *)
Lemma traceWalk_inside db label b e target chain fuel :
  leb (Timestamp (enter target)) e = true →
  ancestry db label target chain →
  Forall (passed ltb b target) chain →
  walkEnds ltb db label b (topOf target chain) →
  length chain < fuel →
  traceWalk leb ltb fuel db label b e target =
    (TargetId (intervalId target) :: plainIds chain
       ++ (traceTail (exitAt db label (topOf target chain))).1,
     (traceTail (exitAt db label (topOf target chain))).2).
Proof.
  intros Hin Hanc Hpass Hend Hfuel.
  assert (Hrb : rightBoundary leb e target target (Some target)
                = ([TargetId (intervalId target)], None)).
  { unfold rightBoundary. by rewrite Hin, decide_True. }
  rewrite (traceWalk_stream _ _ _ _ _ _ _ _
             (traceLoop_climb db label b e target chain target (Some target)
                fuel ltac:(by rewrite Hrb) Hanc Hpass Hend Hfuel)).
  by rewrite Hrb, decide_True.
Qed.

Lemma walkEnds_root db label b top :
  lastParentInterval top = None → walkEnds ltb db label b top.
Proof. intros Hroot link s Hl. by rewrite Hroot in Hl. Qed.

Lemma exitAt_root db label top :
  lastParentInterval top = None → exitAt db label top = AtRoot.
Proof. intros Hroot. unfold exitAt. by rewrite Hroot. Qed.

(** X3: the full traceback.  For a target that starts at or before [end]
    and whose chain of parent links leads, through stored intervals other
    than the target that do not end before [begin], to an interval without
    parent link, the generator finishes after yielding the target's id
    sent directly, then the id of every ancestor in the order of the links,
    then the closing bracket -- no marker.  Behind the opening bracket the
    text is the JSON array of these quoted ids. *)
Theorem trace_inside_window_lists_ancestors_to_root
    fuel db label b e target chain :
  leb (Timestamp (enter target)) e = true →
  ancestry db label target chain →
  Forall (passed ltb b target) chain →
  lastParentInterval (topOf target chain) = None →
  length chain < fuel →
  traceWalk leb ltb fuel db label b e target =
    (TargetId (intervalId target) :: plainIds chain ++ [Text "]"], Finished) ∧
  ∀ json_dumps json_dumps_interval,
    body json_dumps json_dumps_interval
         (Text "[" :: TargetId (intervalId target) :: plainIds chain ++ [Text "]"]) =
    "[" +:+ String.concat ","
              (quoted <$> (intervalId <$> target :: chain)) +:+ "]".
Proof.
  intros Hin Hanc Hpass Hroot Hfuel. split.
  - rewrite (traceWalk_inside db label b e target chain fuel Hin Hanc Hpass
               (walkEnds_root _ _ _ _ Hroot) Hfuel).
    by rewrite (exitAt_root _ _ _ Hroot).
  - intros. rewrite !body_cons. cbn [render].
    by rewrite body_plainIds.
Qed.

(** X4: a trace clipped on the left.  When the chain of passed ancestors
    ends at an interval whose parent ends before [begin], the generator
    finishes and the whole stream is: the target's id, the ids of the passed
    ancestors, and then -- if the clipped parent has a parent link of its
    own -- the beyondLeft marker built from that link followed by the
    clipped parent's id; the closing bracket ends it.  A clipped parent
    without parent link leaves no trace in the stream at all. *)
Theorem trace_clipped_on_the_left fuel db label b e target chain link s :
  leb (Timestamp (enter target)) e = true →
  ancestry db label target chain →
  Forall (passed ltb b target) chain →
  lastParentInterval (topOf target chain) = Some link →
  getInterval db label "intervals" (parent_id link) = Ok s →
  ltb (Timestamp (leave s)) b = true →
  length chain < fuel →
  traceWalk leb ltb fuel db label b e target =
    (TargetId (intervalId target) :: plainIds chain ++
       match lastParentInterval s with
       | Some up =>
           [BeyondLeft (parent_id up) (parent_location up)
                       (parent_endTimestamp up);
            CommaId (intervalId s);
            Text "]"]
       | None => [Text "]"]
       end,
     Finished).
Proof.
  intros Hin Hanc Hpass Hlink Hget Hleft Hfuel.
  assert (Hend : walkEnds ltb db label b (topOf target chain)).
  { intros link' s' Hl Hg. rewrite Hlink in Hl. injection Hl as <-.
    rewrite Hget in Hg. by injection Hg as <-. }
  rewrite (traceWalk_inside db label b e target chain fuel Hin Hanc Hpass
             Hend Hfuel).
  unfold exitAt. rewrite Hlink, Hget. cbn [traceTail].
  by destruct (lastParentInterval s).
Qed.

(** X5: a dangling parent link aborts the trace in mid-stream.  When the
    chain of passed ancestors ends at an interval whose parent link names an
    id that the interval store does not hold, the generator raises the
    KeyError of that id after the target's id and the ancestors' ids have
    been sent: the stream is left without closing bracket. *)
Theorem trace_aborts_at_dangling_parent_link
    fuel db label ds store b e target chain link :
  db !! label = Some ds →
  ds !! "intervals" = Some (FIntervals store) →
  leb (Timestamp (enter target)) e = true →
  ancestry db label target chain →
  Forall (passed ltb b target) chain →
  lastParentInterval (topOf target chain) = Some link →
  store !! parent_id link = None →
  length chain < fuel →
  traceWalk leb ltb fuel db label b e target =
    (TargetId (intervalId target) :: plainIds chain,
     Raised (KeyError (parent_id link))) ∧
  Text "]" ∉ TargetId (intervalId target) :: plainIds chain.
Proof.
  intros H Hs Hin Hanc Hpass Hlink Hmiss Hfuel.
  assert (Hget : getInterval db label "intervals" (parent_id link)
                 = Raise (KeyError (parent_id link))).
  { unfold getInterval. rewrite (getDataset_Some _ _ _ H).
    cbn [mbind result_bind]. by rewrite Hs, Hmiss. }
  assert (Hend : walkEnds ltb db label b (topOf target chain)).
  { intros link' s' Hl Hg. rewrite Hlink in Hl. injection Hl as <-.
    by rewrite Hget in Hg. }
  split.
  - rewrite (traceWalk_inside db label b e target chain fuel Hin Hanc Hpass
               Hend Hfuel).
    unfold exitAt. rewrite Hlink, Hget. cbn [traceTail fst snd].
    by rewrite app_nil_r.
  - intros [Heq | Hin']%elem_of_cons; [done |].
    unfold plainIds in Hin'. by apply list_elem_of_fmap in Hin' as (a & [=] & _).
Qed.

(** The walk from a target that starts after [end], from the first
    ancestor [w] that starts at or before it. *)
Lemma traceWalk_beyond db label b e target mid w post fuel :
  leb (Timestamp (enter target)) e = false →
  ancestry db label target (mid ++ w :: post) →
  Forall (passed ltb b target) (mid ++ w :: post) →
  Forall (λ a, leb (Timestamp (enter a)) e = false) mid →
  leb (Timestamp (enter w)) e = true →
  lastParentInterval (topOf w post) = None →
  length (mid ++ w :: post) < fuel →
  traceWalk leb ltb fuel db label b e target =
    (plainIds mid
       ++ (rightBoundary leb e target w (Some (topOf target mid))).1
       ++ plainIds (w :: post) ++ [Text "]"],
     Finished).
Proof.
  intros Hout Hanc Hpass Hmid Hw Hroot Hfuel.
  change (mid ++ w :: post) with (mid ++ [w] ++ post) in *.
  rewrite (assoc_L (++)) in Hanc, Hpass, Hfuel.
  apply ancestry_app in Hanc as [Hanc Hpost]. rewrite topOf_snoc in Hpost.
  apply Forall_app in Hpass as [Hpass Hpostpass].
  apply Forall_app in Hpass as [Hmidpass [[Hwne Hwlt] _]%Forall_cons].
  rewrite !length_app in Hfuel. cbn [length] in Hfuel.
  replace fuel with (S (length mid + (fuel - S (length mid)))) by lia.
  assert (Hrb : (rightBoundary leb e target w (Some (topOf target mid))).2
                = None).
  { unfold rightBoundary. by rewrite Hw. }
  rewrite (traceWalk_stream _ _ _ _ _ _ _ _
    (traceLoop_beyond db label b e target mid target target w
       (fuel - S (length mid)) Hout Hanc Hmidpass Hmid Hwlt)).
  cbn zeta.
  rewrite (traceLoop_climb db label b e target post w
             (Some (topOf target mid)) (fuel - S (length mid)) Hrb Hpost
             Hpostpass (walkEnds_root _ _ _ _ Hroot)) by lia.
  rewrite (exitAt_root _ _ _ Hroot). cbn [fst snd traceTail].
  rewrite decide_True, (decide_False (P:=w = target)) by done.
  cbn [app]. by rewrite <- !(assoc_L (++)).
Qed.

(** X6: a target beyond the window is still sent directly when its parent
    is inside.  For a target that starts after [end] whose parent starts at
    or before [end], the stream is the one of a target inside the window:
    the target's id sent directly, the ancestors' ids, the closing bracket --
    and no beyondRight marker. *)
Theorem target_beyond_window_is_sent_directly_below_window_parent
    fuel db label b e target w post :
  leb (Timestamp (enter target)) e = false →
  ancestry db label target (w :: post) →
  Forall (passed ltb b target) (w :: post) →
  leb (Timestamp (enter w)) e = true →
  lastParentInterval (topOf w post) = None →
  length (w :: post) < fuel →
  traceWalk leb ltb fuel db label b e target =
    (TargetId (intervalId target) :: plainIds (w :: post) ++ [Text "]"],
     Finished).
Proof.
  intros Hout Hanc Hpass Hw Hroot Hfuel.
  rewrite (traceWalk_beyond db label b e target [] w post fuel Hout Hanc Hpass
             (Forall_nil_2 _) Hw Hroot Hfuel).
  unfold rightBoundary, topOf. cbn [last default]. by rewrite Hw, decide_True.
Qed.

(** X7: ancestors beyond the window are sent before the marker.  When the
    target and its first ancestors [pre ++ [r]] all start after [end] and
    the next ancestor [w] starts at or before it, the stream holds the
    comma-prefixed ids of [pre ++ [r]] first, then the beyondRight marker of
    [r], then the ids from [w] to the root and the closing bracket.  The
    target's id is never sent, and the first chunk behind the opening
    bracket starts with a comma. *)
Theorem ancestors_beyond_window_precede_the_marker
    fuel db label b e target pre r w post :
  leb (Timestamp (enter target)) e = false →
  ancestry db label target ((pre ++ [r]) ++ w :: post) →
  Forall (passed ltb b target) ((pre ++ [r]) ++ w :: post) →
  Forall (λ a, leb (Timestamp (enter a)) e = false) (pre ++ [r]) →
  leb (Timestamp (enter w)) e = true →
  lastParentInterval (topOf w post) = None →
  length ((pre ++ [r]) ++ w :: post) < fuel →
  traceWalk leb ltb fuel db label b e target =
    (plainIds (pre ++ [r])
       ++ BeyondRight (intervalId r) (Location r) (Timestamp (enter r))
       :: plainIds (w :: post) ++ [Text "]"],
     Finished) ∧
  (TargetId (intervalId target)
     ∉ (traceWalk leb ltb fuel db label b e target).1) ∧
  ∃ first rest,
    (traceWalk leb ltb fuel db label b e target).1 = CommaId first :: rest.
Proof.
  intros Hout Hanc Hpass Hmid Hw Hroot Hfuel.
  assert (Hr : r ≠ target).
  { apply Forall_app in Hpass as [Hpass _].
    by apply Forall_app in Hpass as [_ [[? _] _]%Forall_cons]. }
  rewrite (traceWalk_beyond db label b e target (pre ++ [r]) w post fuel Hout
             Hanc Hpass Hmid Hw Hroot Hfuel).
  rewrite topOf_snoc. unfold rightBoundary. rewrite Hw, decide_False by done.
  cbn [fst app]. split; [done | split].
  - rewrite elem_of_app, elem_of_cons, elem_of_app. unfold plainIds.
    intros [(a & [=] & _)%list_elem_of_fmap
           | [[=] | [(a & [=] & _)%list_elem_of_fmap
                     | [=]%list_elem_of_singleton]]].
  - destruct pre as [|p pre]; by eexists _, _.
Qed.

(** X8: a trace that never reaches the window sends no boundary at all.
    When the target and every ancestor up to the root start after [end],
    the generator finishes with the ancestors' comma-prefixed ids and the
    closing bracket: neither the target's id nor a beyondRight marker is
    sent.  For a target without parent link the stream behind the opening
    bracket is the closing bracket alone. *)
Theorem trace_right_of_the_window_sends_no_boundary
    fuel db label b e target chain :
  leb (Timestamp (enter target)) e = false →
  ancestry db label target chain →
  Forall (passed ltb b target) chain →
  Forall (λ a, leb (Timestamp (enter a)) e = false) chain →
  lastParentInterval (topOf target chain) = None →
  length chain < fuel →
  traceWalk leb ltb fuel db label b e target =
    (plainIds chain ++ [Text "]"], Finished) ∧
  Forall (λ c, is_right_boundary c = false) (plainIds chain ++ [Text "]"]).
Proof.
  intros Hout Hanc Hpass Hall Hroot Hfuel. split.
  - destruct chain as [|top mid _] using rev_ind.
    + destruct fuel as [|n]; [cbn in Hfuel; lia |].
      change (topOf target []) with target in Hroot.
      rewrite (traceWalk_stream _ _ _ _ _ _ _ _
                 (traceLoop_stop n db label b e target target (Some target)
                    (walkEnds_root _ _ _ _ Hroot))).
      rewrite (exitAt_root _ _ _ Hroot). unfold rightBoundary.
      by rewrite Hout, decide_True.
    + rewrite topOf_snoc in Hroot.
      apply Forall_app in Hpass as [Hpass [[Hne Hlt] _]%Forall_cons].
      apply Forall_app in Hall as [Hall [Htop _]%Forall_cons].
      rewrite length_app in Hfuel. cbn [length] in Hfuel.
      replace fuel with (S (length mid + S (fuel - S (S (length mid)))))
        by lia.
      rewrite (traceWalk_stream _ _ _ _ _ _ _ _
        (traceLoop_beyond db label b e target mid target target top
           _ Hout Hanc Hpass Hall Hlt)).
      cbn zeta.
      rewrite (traceLoop_stop _ db label b e target top _
                 (walkEnds_root _ _ _ _ Hroot)).
      rewrite (exitAt_root _ _ _ Hroot). unfold rightBoundary.
      rewrite Htop, decide_True, (decide_False (P:=top = target)) by done.
      cbn [fst snd traceTail app]. unfold plainIds.
      by rewrite fmap_app, <- !(assoc_L (++)).
  - apply Forall_app. split; [| by apply Forall_singleton].
    unfold plainIds. by apply Forall_fmap, Forall_true.
Qed.

(** ** What the loop never yields *)

(** X9: the loop lists no interval that lies left of the window.  Every
    comma-prefixed id that the loop of a trace yields is the [intervalId] of
    an interval held by the interval store, other than the target, that
    does not end before [begin]; an interval that ends before [begin] is
    named after the loop only. *)
Theorem loop_lists_no_interval_left_of_window fuel db label b e target :
  Forall (plainAncestor ltb db label b target)
         (traceLoop leb ltb fuel db label b e target target (Some target)).1.
Proof.
  (* the invariant: the interval at hand is the target, or was reached
     through a parent link and does not end before [begin] *)
  cut (∀ cur obr,
         (cur ≠ target →
          (∃ key, getInterval db label "intervals" key = Ok cur) ∧
          ltb (Timestamp (leave cur)) b = false) →
         Forall (plainAncestor ltb db label b target)
                (traceLoop leb ltb fuel db label b e target cur obr).1).
  { intros Hinv. by apply Hinv. }
  induction fuel as [|n IH]; intros cur obr Hcur; [constructor |].
  cbn [traceLoop].
  assert (Hfirst : Forall (plainAncestor ltb db label b target)
                          (rightBoundary leb e target cur obr).1).
  { unfold rightBoundary. destruct obr as [o|]; [| constructor].
    destruct (leb (Timestamp (enter cur)) e); [| constructor].
    destruct (decide (o = target)); by apply Forall_singleton. }
  assert (Hown : Forall (plainAncestor ltb db label b target)
                   (if decide (cur = target) then []
                    else [CommaId (intervalId cur)] : list (@Chunk Time))).
  { destruct (decide (cur = target)) as [|Hne]; [constructor |].
    apply Forall_singleton. intros id [= <-].
    destruct (Hcur Hne) as [[key Hkey] Hlt]. by exists cur, key. }
  destruct (rightBoundary leb e target cur obr) as [first obr1].
  cbn [fst] in Hfirst.
  destruct (lastParentInterval cur) as [link|]; cbn [fst];
    [| by apply Forall_app].
  destruct (getInterval db label "intervals" (parent_id link))
    as [p|err] eqn:Hget; cbn [fst]; [| by apply Forall_app].
  destruct (ltb (Timestamp (leave p)) b) eqn:Hlt; cbn [fst];
    [by apply Forall_app |].
  specialize (IH p (match obr1 with Some _ => Some cur | None => None end)).
  destruct (traceLoop leb ltb n db label b e target p _) as [rest ex].
  cbn [fst] in *. rewrite !Forall_app. split; [done | split; [done |]].
  apply IH. intros _. split; [by exists (parent_id link) | done].
Qed.

(** ** The closing bracket *)

Lemma intervalItems_no_closing db label :
  ∀ ids firstItem, Text "]" ∉ (intervalItems db label firstItem ids).1.
Proof.
  induction ids as [|i rest IH]; intros firstItem; [by intros ?%elem_of_nil |].
  cbn [intervalItems].
  assert (Hcomma : Text "]" ∉ (if firstItem then [] else [@Text Time ","])).
  { destruct firstItem; [by intros ?%elem_of_nil |].
    by intros [= ]%list_elem_of_singleton. }
  destruct (getInterval db label "intervals" i) as [record|err]; [| done].
  specialize (IH false).
  destruct (intervalItems db label false rest) as [out how]. cbn [fst] in *.
  rewrite elem_of_app, elem_of_cons. by intros [?|[?|?]].
Qed.

(** X10: both generators yield the closing bracket exactly when they
    finish.  A trace or an interval listing that finishes is the opening
    bracket, chunks without closing bracket, and the closing bracket as the
    last chunk; one that is ended by an exception (or is still running) holds
    no closing bracket anywhere. *)
Theorem streams_close_only_when_finished fuel db label targetId b e :
  closedOnlyWhenFinished
    (intervalIdGenerator leb ltb fuel db label targetId b e) ∧
  closedOnlyWhenFinished (intervalGenerator db label b e).
Proof.
  assert (Hopen : Text "]" ∉ [@Text Time "["])
    by (by intros [= ]%list_elem_of_singleton).
  split.
  - unfold intervalIdGenerator.
    destruct (getInterval db label "itervals" targetId) as [target|err];
      [| by right].
    pose proof (traceLoop_no_text fuel db label b e target target
                  (Some target) "]") as Hloop.
    destruct (traceLoop leb ltb fuel db label b e target target (Some target))
      as [out ex] eqn:Hrun.
    rewrite (traceWalk_stream _ _ _ _ _ _ _ _ Hrun). cbn [fst] in Hloop.
    destruct ex as [|s|err|]; cbn [traceTail fst snd].
    + left. split; [done |]. by exists out.
    + destruct (lastParentInterval s) as [up|]; cbn [fst snd]; left;
        (split; [done |]).
      * exists (out ++ [BeyondLeft (parent_id up) (parent_location up)
                                   (parent_endTimestamp up);
                        CommaId (intervalId s)]).
        split; [by rewrite <- (assoc_L (++)) |].
        rewrite elem_of_app, !elem_of_cons. by intros [?|[?|[?|?%elem_of_nil]]].
      * by exists out.
    + right. split; [done |]. cbn [fst]. rewrite app_nil_r, elem_of_cons.
      by intros [?|?].
    + right. split; [done |]. cbn [fst]. rewrite app_nil_r, elem_of_cons.
      by intros [?|?].
  - unfold intervalGenerator.
    destruct (getIndexes db label) as [ixs|err]; [| by right].
    pose proof (intervalItems_no_closing db label
                  (iterOverlap (main ixs) b e) true) as Hitems.
    destruct (intervalItems db label true (iterOverlap (main ixs) b e))
      as [out how].
    cbn [fst] in Hitems. destruct how as [|err|]; cbn [fst snd].
    + left. split; [done |]. by exists out.
    + right. split; [done |]. cbn [fst]. rewrite elem_of_cons.
      by intros [?|?].
    + right. split; [done |]. cbn [fst]. rewrite elem_of_cons.
      by intros [?|?].
Qed.

(** ** The interval listing on a broken index *)

Lemma intervalItems_missing db label ds store pre i post :
  db !! label = Some ds → ds !! "intervals" = Some (FIntervals store) →
  Forall (λ j, is_Some (store !! j)) pre → store !! i = None →
  ∀ firstItem,
    intervalItems db label firstItem (pre ++ i :: post) =
      ((if firstItem then [] else [Text ","])
         ++ flat_map (λ x, [x; Text ","])
                     (IntervalJson <$> omap (store !!.) pre),
       Raised (KeyError i)).
Proof.
  intros H Hs Hpre Hmiss.
  assert (Hget : getInterval db label "intervals" i = Raise (KeyError i)).
  { unfold getInterval. rewrite (getDataset_Some _ _ _ H).
    cbn [mbind result_bind]. by rewrite Hs, Hmiss. }
  induction Hpre as [|j pre [record Hj] _ IH]; intros firstItem.
  - cbn [app intervalItems]. rewrite Hget. cbn. by rewrite app_nil_r.
  - cbn [app intervalItems omap list_omap]. rewrite Hj.
    rewrite (getInterval_Some _ _ _ _ _ _ _ H Hs Hj), (IH false).
    cbn [fmap list_fmap flat_map]. by destruct firstItem.
Qed.

(** X11: the interval listing aborts at the first id the store does not
    hold.  When the main index yields an id that is missing from the
    interval store, the generator raises the KeyError of that id; by then it
    has sent the opening bracket and every record before the missing one,
    each followed by a comma -- the comma that precedes the missing record
    is already sent -- and no closing bracket follows. *)
Theorem listing_aborts_at_first_missing_id
    db label ds store ixs b e pre i post :
  db !! label = Some ds →
  ds !! "intervals" = Some (FIntervals store) →
  ds !! "intervalIndexes" = Some (FIndexes ixs) →
  iterOverlap (main ixs) b e = pre ++ i :: post →
  Forall (λ j, is_Some (store !! j)) pre →
  store !! i = None →
  intervalGenerator db label b e =
    (Text "[" :: flat_map (λ x, [x; Text ","])
                          (IntervalJson <$> omap (store !!.) pre),
     Raised (KeyError i)).
Proof.
  intros H Hs Hx Hids Hpre Hmiss. unfold intervalGenerator.
  rewrite (getIndexes_Some _ _ _ _ H Hx), Hids.
  by rewrite (intervalItems_missing db label ds store pre i post H Hs Hpre
                Hmiss true).
Qed.

(** ** The window bounds and the dataset's meta data *)

(** X12: an omitted bound needs the dataset's interval domain.  On an
    indexed dataset without ['meta'] each of the three query handlers
    raises KeyError 'meta' as soon as one bound is omitted, whatever the
    selectors and the interval id are -- before any index is looked up.
    With an interval domain of one element an omitted [end] raises an
    IndexError in each of them. *)
Theorem omitted_bound_needs_interval_domain fuel db label ds fi fx :
  db !! label = Some ds →
  ds !! "intervals" = Some fi → ds !! "intervalIndexes" = Some fx →
  (ds !! "meta" = None →
   ∀ mode bins begin end_ location primitive intervalId,
     begin = None ∨ end_ = None →
     histogram db label mode bins begin end_ location primitive
       = Raise (KeyError "meta") ∧
     intervals db label begin end_ = Raise (KeyError "meta") ∧
     intervalTrace leb ltb fuel db label intervalId begin end_
       = Raise (KeyError "meta")) ∧
  (∀ m t, ds !! "meta" = Some (FMeta m) → intervalDomain m = Some [t] →
   ∀ mode bins begin location primitive intervalId,
     histogram db label mode bins begin None location primitive
       = Raise IndexError ∧
     intervals db label begin None = Raise IndexError ∧
     intervalTrace leb ltb fuel db label intervalId begin None
       = Raise IndexError).
Proof.
  intros H Hi Hx. split.
  - intros Hmeta mode bins begin end_ location primitive intervalId Hnone.
    assert (Hdom : ∀ k, intervalDomainAt db label k = Raise (KeyError "meta")).
    { intros k. unfold intervalDomainAt. rewrite (getDataset_Some _ _ _ H).
      cbn [mbind result_bind]. by rewrite Hmeta. }
    unfold histogram, intervals, intervalTrace.
    rewrite (checkDatasetExistence_Some _ _ _ H).
    cbn [mbind mret result_bind result_ret].
    rewrite (checkDatasetHasIntervals_Some _ _ _ _ _ H Hi Hx).
    cbn [mbind mret result_bind result_ret].
    destruct begin as [t|]; cbn [orDomain].
    + destruct Hnone as [? | ->]; [done |]. cbn [orDomain].
      cbn [mbind mret result_bind result_ret]. rewrite !Hdom.
      by cbn [mbind mret result_bind result_ret].
    + rewrite !Hdom. by cbn [mbind mret result_bind result_ret].
  - intros m t Hmeta Hdomain mode bins begin location primitive intervalId.
    assert (Hdom0 : intervalDomainAt db label 0 = Ok t).
    { by apply (intervalDomainAt_Some _ _ ds m [t]). }
    assert (Hdom1 : intervalDomainAt db label 1 = Raise IndexError).
    { unfold intervalDomainAt. rewrite (getDataset_Some _ _ _ H).
      cbn [mbind result_bind]. by rewrite Hmeta, Hdomain. }
    assert (Hb : ∃ t', orDomain db label 0 begin = Ok t').
    { destruct begin as [t'|]; [by exists t' | by exists t]. }
    destruct Hb as [t' Hb].
    unfold histogram, intervals, intervalTrace.
    rewrite (checkDatasetExistence_Some _ _ _ H).
    cbn [mbind mret result_bind result_ret].
    rewrite (checkDatasetHasIntervals_Some _ _ _ _ _ H Hi Hx).
    cbn [mbind mret result_bind result_ret].
    rewrite Hb. cbn [orDomain mbind mret result_bind result_ret].
    rewrite Hdom1. by cbn [mbind mret result_bind result_ret].
Qed.

(** The loop and the listing read [db] through the interval store only. *)
Lemma traceLoop_ext db1 db2 label b e target :
  (∀ id, getInterval db1 label "intervals" id
         = getInterval db2 label "intervals" id) →
  ∀ fuel cur obr,
    traceLoop leb ltb fuel db1 label b e target cur obr =
    traceLoop leb ltb fuel db2 label b e target cur obr.
Proof.
  intros Hext. induction fuel as [|n IH]; intros cur obr; [done |].
  cbn [traceLoop].
  destruct (rightBoundary leb e target cur obr) as [first obr1].
  destruct (lastParentInterval cur) as [link|]; [| done].
  rewrite Hext.
  destruct (getInterval db2 label "intervals" (parent_id link)) as [p|err];
    [| done].
  by rewrite IH.
Qed.

Lemma intervalItems_ext db1 db2 label :
  (∀ id, getInterval db1 label "intervals" id
         = getInterval db2 label "intervals" id) →
  ∀ ids firstItem,
    intervalItems db1 label firstItem ids = intervalItems db2 label firstItem ids.
Proof.
  intros Hext. induction ids as [|i rest IH]; intros firstItem; [done |].
  cbn [intervalItems]. by rewrite Hext, IH.
Qed.

(** X13: with both bounds given, the query handlers never read ['meta'].
    Whatever is done to the dataset's entries under the key ['meta'] --
    replaced, or deleted -- each of the three query handlers answers a
    request that gives [begin] and [end] exactly as before. *)
Theorem explicit_bounds_never_read_meta fuel db label
    (f : gmap string (@Field Time Hist) → gmap string (@Field Time Hist)) :
  (∀ ds key, key ≠ "meta" → f ds !! key = ds !! key) →
  ∀ mode bins b e location primitive targetId,
    histogram (alter f label db) label mode bins (Some b) (Some e)
              location primitive
      = histogram db label mode bins (Some b) (Some e) location primitive ∧
    intervals (alter f label db) label (Some b) (Some e)
      = intervals db label (Some b) (Some e) ∧
    intervalTrace leb ltb fuel (alter f label db) label targetId
                  (Some b) (Some e)
      = intervalTrace leb ltb fuel db label targetId (Some b) (Some e).
Proof.
  intros Hf mode bins b e location primitive targetId.
  assert (Hlook : alter f label db !! label = f <$> db !! label).
  { by rewrite lookup_alter, decide_True. }
  assert (Hex : checkDatasetExistence (alter f label db) label
                = checkDatasetExistence db label).
  { unfold checkDatasetExistence. rewrite Hlook. by destruct (db !! label). }
  unfold histogram, intervals, intervalTrace. rewrite Hex.
  destruct (db !! label) as [ds|] eqn:H.
  2: { rewrite (checkDatasetExistence_None _ _ H).
       by cbn [mbind result_bind]. }
  cbn [fmap option_fmap option_map] in Hlook.
  assert (Hget : getDataset (alter f label db) label = Ok (f ds))
    by (by apply getDataset_Some).
  assert (Hget0 : getDataset db label = Ok ds) by (by apply getDataset_Some).
  assert (Hchk : checkDatasetHasIntervals (alter f label db) label
                 = checkDatasetHasIntervals db label).
  { unfold checkDatasetHasIntervals. rewrite Hget, Hget0.
    cbn [mbind result_bind]. by rewrite !Hf. }
  assert (Hidx : getIndexes (alter f label db) label = getIndexes db label).
  { unfold getIndexes. rewrite Hget, Hget0.
    cbn [mbind result_bind]. by rewrite Hf. }
  assert (Hint : ∀ key id, key ≠ "meta" →
            getInterval (alter f label db) label key id
            = getInterval db label key id).
  { intros key id Hkey. unfold getInterval. rewrite Hget, Hget0.
    cbn [mbind result_bind]. by rewrite Hf. }
  rewrite Hchk. cbn [orDomain]. rewrite Hidx.
  destruct (checkDatasetExistence db label); [| done].
  destruct (checkDatasetHasIntervals db label); [| done].
  cbn [mbind mret result_bind result_ret].
  split; [done | split].
  - unfold intervalGenerator. rewrite Hidx.
    destruct (getIndexes db label) as [ixs|err]; [| done].
    by rewrite (intervalItems_ext (alter f label db) db label
                  (λ id, Hint "intervals" id ltac:(done))).
  - unfold intervalIdGenerator, traceWalk.
    rewrite (Hint "itervals" targetId) by done.
    destruct (getInterval db label "itervals" targetId) as [target|err];
      [| done].
    by rewrite (traceLoop_ext (alter f label db) db label b e target
                  (λ id, Hint "intervals" id ltac:(done))).
Qed.

(** ** The getters *)

(** X14: each of the three source getters answers with what the dataset
    stores under its key, and fails otherwise with a 404 of its own:
    'Dataset not found' for an unknown label from each of them, and for a
    dataset without the key 'Dataset does not include physl source code'
    from [get_physl], '... python source code' from [get_python] and
    '... C++ source code' from [get_cpp] -- three details that differ from
    each other and from 'Dataset not found'.  [get_dataset] checks the
    label alone: on a dataset without ['meta'] it raises a KeyError, not a
    404. *)
Theorem getters_answer_the_stored_part_or_fail db label :
  let served (key detail : string) (r : result (@Field Time Hist)) :=
    match db !! label with
    | None => r = Raise (HTTPException 404 "Dataset not found")
    | Some ds =>
        match ds !! key with
        | Some part => r = Ok part
        | None => r = Raise (HTTPException 404 detail)
        end
    end in
  served "physl" "Dataset does not include physl source code"
         (get_physl db label) ∧
  served "python" "Dataset does not include python source code"
         (get_python db label) ∧
  served "cpp" "Dataset does not include C++ source code"
         (get_cpp db label) ∧
  match db !! label with
  | None => get_dataset db label = Raise (HTTPException 404 "Dataset not found")
  | Some ds =>
      match ds !! "meta" with
      | Some part => get_dataset db label = Ok part
      | None => get_dataset db label = Raise (KeyError "meta")
      end
  end ∧
  NoDup ["Dataset not found";
         "Dataset does not include physl source code";
         "Dataset does not include python source code";
         "Dataset does not include C++ source code"].
Proof.
  intros served. unfold served, get_physl, get_python, get_cpp, get_dataset.
  split; [| split; [| split; [| split]]].
  5: { apply (bool_decide_unpack _). by vm_compute. }
  all: destruct (db !! label) as [ds|] eqn:H;
    [ rewrite (checkDatasetExistence_Some _ _ _ H), (getDataset_Some _ _ _ H);
      cbn [mbind result_bind]
    | by rewrite (checkDatasetExistence_None _ _ H) ].
  - by destruct (ds !! "physl").
  - by destruct (ds !! "python").
  - by destruct (ds !! "cpp").
  - by destruct (ds !! "meta").
Qed.

End WalkProperties.

(** * The walk, evaluated *)

(** The chain [T -> A -> B] of [dbRight], for the windows used below. *)
Lemma dbRight_ancestry :
  ancestry dbRight "run" intervalT_right [intervalA; intervalB].
Proof. by repeat split. Defined.

Lemma walk_terminates_on_finite_ancestry_witness :
  (traceWalk Z.leb Z.ltb 7 dbRight "run" 20%Z 30%Z intervalT_right).2
    ≠ Running ∧
  (traceWalk Z.leb Z.ltb 2 dbRight "run" 20%Z 30%Z intervalT_right).2
    = Running.
Proof.
  pose proof (walk_terminates_on_finite_ancestry Z.leb Z.ltb 7 dbRight "run"
    20%Z 30%Z intervalT_right [intervalA; intervalB] dbRight_ancestry) as Hthm.
  destruct Hthm as (_ & Hends & Hfewer).
  - by repeat constructor.
  - by intros link s [=].
  - cbn. lia.
  - split; [exact Hends | apply Hfewer; cbn; lia].
Defined.

Lemma walk_on_cyclic_links_never_finishes_witness :
  (traceWalk Z.leb Z.ltb 1000 dbLoop "run" 20%Z 30%Z intervalLoop).2 = Running.
Proof.
  apply (walk_on_cyclic_links_never_finishes Z.leb Z.ltb dbLoop "run"
           20%Z 30%Z intervalLoop [] intervalLoop []).
  - by repeat split.
  - by repeat constructor.
Defined.

Lemma trace_inside_window_lists_ancestors_to_root_witness :
  traceWalk Z.leb Z.ltb 5 dbB "run" 20%Z 30%Z intervalT
    = ([TargetId "T"; CommaId "P"; Text "]"], Finished).
Proof.
  apply (trace_inside_window_lists_ancestors_to_root Z.leb Z.ltb 5 dbB "run"
           20%Z 30%Z intervalT [intervalP]).
  - reflexivity.
  - by repeat split.
  - by repeat constructor.
  - reflexivity.
  - cbn. lia.
Defined.

Lemma trace_clipped_on_the_left_witness :
  traceWalk Z.leb Z.ltb 5 dbLeftChain "run" 20%Z 30%Z intervalT_late
    = ([TargetId "T"; BeyondLeft "G" "L1" 12%Z; CommaId "P"; Text "]"],
       Finished).
Proof.
  apply (trace_clipped_on_the_left Z.leb Z.ltb 5 dbLeftChain "run"
           20%Z 30%Z intervalT_late []
           {| parent_id := "P"; parent_location := "L0";
              parent_endTimestamp := 10%Z |} intervalP_mid).
  - reflexivity.
  - exact I.
  - constructor.
  - reflexivity.
  - reflexivity.
  - reflexivity.
  - cbn. lia.
Defined.

Lemma trace_aborts_at_dangling_parent_link_witness :
  traceWalk Z.leb Z.ltb 5 dbDangling "run" 20%Z 30%Z intervalT
    = ([TargetId "T"], Raised (KeyError "P")).
Proof.
  apply (trace_aborts_at_dangling_parent_link Z.leb Z.ltb 5 dbDangling "run"
           (datasetOf {[ "T" := intervalT ]} ["T"]) {[ "T" := intervalT ]}
           20%Z 30%Z intervalT []
           {| parent_id := "P"; parent_location := "L0";
              parent_endTimestamp := 40%Z |}).
  - reflexivity.
  - reflexivity.
  - reflexivity.
  - exact I.
  - constructor.
  - reflexivity.
  - reflexivity.
  - cbn. lia.
Defined.

Lemma target_beyond_window_is_sent_directly_below_window_parent_witness :
  traceWalk Z.leb Z.ltb 5 dbRight "run" 20%Z 45%Z intervalT_right
    = ([TargetId "T"; CommaId "A"; CommaId "B"; Text "]"], Finished).
Proof.
  apply (target_beyond_window_is_sent_directly_below_window_parent
           Z.leb Z.ltb 5 dbRight "run" 20%Z 45%Z intervalT_right
           intervalA [intervalB]).
  - reflexivity.
  - exact dbRight_ancestry.
  - by repeat constructor.
  - reflexivity.
  - reflexivity.
  - cbn. lia.
Defined.

Lemma ancestors_beyond_window_precede_the_marker_witness :
  traceWalk Z.leb Z.ltb 5 dbRight "run" 20%Z 30%Z intervalT_right
    = ([CommaId "A"; BeyondRight "A" "L0" 40%Z; CommaId "B"; Text "]"],
       Finished).
Proof.
  apply (ancestors_beyond_window_precede_the_marker Z.leb Z.ltb 5 dbRight
           "run" 20%Z 30%Z intervalT_right [] intervalA intervalB []).
  - reflexivity.
  - exact dbRight_ancestry.
  - by repeat constructor.
  - by repeat constructor.
  - reflexivity.
  - reflexivity.
  - cbn. lia.
Defined.

Lemma trace_right_of_the_window_sends_no_boundary_witness :
  traceWalk Z.leb Z.ltb 5 dbRight "run" (-10)%Z (-5)%Z intervalT_right
    = ([CommaId "A"; CommaId "B"; Text "]"], Finished).
Proof.
  apply (trace_right_of_the_window_sends_no_boundary Z.leb Z.ltb 5 dbRight
           "run" (-10)%Z (-5)%Z intervalT_right [intervalA; intervalB]).
  - reflexivity.
  - exact dbRight_ancestry.
  - by repeat constructor.
  - by repeat constructor.
  - reflexivity.
  - cbn. lia.
Defined.

Lemma listing_aborts_at_first_missing_id_witness :
  intervalGenerator dbRight "run" 0%Z 10%Z
    = ([Text "["; IntervalJson intervalB; Text ","], Raised (KeyError "Q")).
Proof.
  etransitivity.
  - apply (listing_aborts_at_first_missing_id dbRight "run"
             (datasetOf {[ "T" := intervalT_right; "A" := intervalA;
                           "B" := intervalB ]} ["B"; "Q"; "A"])
             {[ "T" := intervalT_right; "A" := intervalA; "B" := intervalB ]}
             (stubIndexSet ["B"; "Q"; "A"]) 0%Z 10%Z ["B"] "Q" ["A"]).
    + reflexivity.
    + reflexivity.
    + reflexivity.
    + reflexivity.
    + repeat constructor. by eexists.
    + reflexivity.
  - reflexivity.
Defined.

Lemma omitted_bound_needs_interval_domain_witness :
  histogram dbNoMeta "run" count 100 None (Some 30%Z) (Some "nowhere") None
    = Raise (KeyError "meta") ∧
  intervals dbShortDomain "run" None None = Raise IndexError.
Proof.
  split.
  - apply (proj1 (omitted_bound_needs_interval_domain Z.leb Z.ltb 5 dbNoMeta
                    "run" (delete "meta" (datasetOf storeB ["P"; "T"]))
                    (FIntervals storeB) (FIndexes (stubIndexSet ["P"; "T"]))
                    eq_refl eq_refl eq_refl)
             eq_refl count 100%Z None (Some 30%Z) (Some "nowhere") None "T").
    by left.
  - apply (proj2 (omitted_bound_needs_interval_domain Z.leb Z.ltb 5
                    dbShortDomain "run"
                    (<["meta" := FMeta {| intervalDomain := Some [0%Z] |}]>
                       (datasetOf storeB ["P"; "T"]))
                    (FIntervals storeB) (FIndexes (stubIndexSet ["P"; "T"]))
                    eq_refl eq_refl eq_refl)
             {| intervalDomain := Some [0%Z] |} 0%Z eq_refl eq_refl
             count 100%Z None None None "T").
Defined.

Lemma explicit_bounds_never_read_meta_witness :
  intervalTrace Z.leb Z.ltb 5 (alter (delete "meta") "run" dbB_both_keys)
                "run" "T" (Some 20%Z) (Some 30%Z)
    = intervalTrace Z.leb Z.ltb 5 dbB_both_keys "run" "T"
                    (Some 20%Z) (Some 30%Z).
Proof.
  apply (explicit_bounds_never_read_meta Z.leb Z.ltb 5 dbB_both_keys "run"
           (delete "meta")
           (λ ds key Hkey, lookup_delete_ne ds "meta" key (not_eq_sym Hkey))
           count 100%Z 20%Z 30%Z None None "T").
Defined.
